(** * diligent_tbench.agent: the Harbor adapter of the diligent coding agent

    A shallow embedding of [src/tools/terminal-bench/src/diligent_tbench/agent.py]
    (class [DiligentAgent]) and the properties of its three methods:
    [_resolve_binary_path], [create_run_agent_commands] and
    [populate_context_post_run].

    Conventions.
    - A Python [str] is a [string]; each [ascii] stands for one character
      (code points 0..255).
    - A Python [dict] with string keys and string values is a
      [gmap string string].
    - A Python [int] is a [Z], a Python [float] a primitive binary64
      [float].
    - A method that can raise returns [exception + A]. *)

From Stdlib Require Import ZArith Ascii String.
From Stdlib Require PrimFloat SpecFloat FloatOps.
From stdpp Require Import base option list gmap strings.

Local Open Scope Z_scope.

(** ** Exceptions raised or caught by the adapter *)

Inductive exception : Type :=
  | FileNotFoundError (msg : string)
  | CalledProcessError
  | JSONDecodeError
  | AttributeError
  | TypeError
  | OverflowError
  | ValueError (msg : string)
  | OtherError (name : string).

(** ** Python string built-ins *)

Module Str.

(** The double quote character (code 34). *)
Definition dquote : ascii := "034"%char.

(** [c in s] for a one-character [c]. *)
Fixpoint mem (c : ascii) (s : string) : bool :=
  match s with
  | EmptyString => false
  | String d s' => Ascii.eqb c d || mem c s'
  end.

(** [not s]: the empty string is falsy. *)
Definition is_empty (s : string) : bool :=
  match s with EmptyString => true | String _ _ => false end.

(** [token += c] *)
Definition snoc (s : string) (c : ascii) : string := s +:+ String c EmptyString.

(** [s.replace(old, new)] for a one-character [old]. *)
Fixpoint replace_char (old : ascii) (new : string) (s : string) : string :=
  match s with
  | EmptyString => EmptyString
  | String c s' =>
      if Ascii.eqb c old then new +:+ replace_char old new s'
      else String c (replace_char old new s')
  end.

(** [s.startswith(p)] *)
Fixpoint startswith (p s : string) : bool :=
  match p, s with
  | EmptyString, _ => true
  | String a p', String b s' => Ascii.eqb a b && startswith p' s'
  | String _ _, EmptyString => false
  end.

(** [sub in s] *)
Fixpoint contains (sub s : string) : bool :=
  startswith sub s ||
  match s with
  | EmptyString => false
  | String _ s' => contains sub s'
  end.

(** [s.endswith(p)] *)
Fixpoint endswith (p s : string) : bool :=
  String.eqb p s ||
  match s with
  | EmptyString => false
  | String _ s' => endswith p s'
  end.

(** [str.isspace] on one character: the white space of [str.strip()]. *)
Definition isspace (c : ascii) : bool :=
  let n := N_of_ascii c in
  ((9 <=? n) && (n <=? 13) || (28 <=? n) && (n <=? 32)
   || (n =? 133) || (n =? 160))%N.

Fixpoint lstrip (s : string) : string :=
  match s with
  | EmptyString => EmptyString
  | String c s' => if isspace c then lstrip s' else s
  end.

(** Drops trailing white space: a character is kept when it is not white
    space or when something is kept after it. *)
Fixpoint rstrip (s : string) : string :=
  match s with
  | EmptyString => EmptyString
  | String c s' =>
      match rstrip s' with
      | EmptyString => if isspace c then EmptyString else String c EmptyString
      | r => String c r
      end
  end.

(** [s.strip()] *)
Definition strip (s : string) : string := rstrip (lstrip s).

(** [s.split(sep, 1)] for a one-character [sep]: at most one split, at the
    first occurrence of [sep]. *)
Fixpoint split1 (sep : ascii) (s : string) : list string :=
  match s with
  | EmptyString => [EmptyString]
  | String c s' =>
      if Ascii.eqb c sep then [EmptyString; s']
      else match split1 sep s' with
           | h :: t => String c h :: t
           | [] => []
           end
  end.

End Str.

(** ** The standard library's [shlex]

    [quote] and [split] as in CPython's [Lib/shlex.py]; [split] is
    [shlex.split(s)], that is a POSIX-mode lexer with [whitespace_split]
    set and no comment characters. *)

Module shlex.

(** [\w] under [re.ASCII]: letters, digits and the underscore. *)
Definition is_word (c : ascii) : bool :=
  let n := N_of_ascii c in
  ((97 <=? n) && (n <=? 122) || (65 <=? n) && (n <=? 90)
   || (48 <=? n) && (n <=? 57) || (n =? 95))%N.

(** The characters outside [_find_unsafe]'s class [[^\w@%+=:,./-]]. *)
Definition is_safe (c : ascii) : bool := is_word c || Str.mem c "@%+=:,./-".

(** [_find_unsafe(s) is None] *)
Fixpoint no_unsafe (s : string) : bool :=
  match s with
  | EmptyString => true
  | String c s' => is_safe c && no_unsafe s'
  end.

(** The replacement of a single quote: ['"'"'] (close the quotes, a
    double-quoted single quote, open the quotes again). *)
Definition squote_escaped : string :=
  String "'" (String Str.dquote (String "'" (String Str.dquote (String "'" EmptyString)))).

Definition quote (s : string) : string :=
  if Str.is_empty s then "''"
  else if no_unsafe s then s
  else "'" +:+ Str.replace_char "'" squote_escaped s +:+ "'".

(** The lexer's attributes in POSIX mode. *)
Definition whitespace : string :=
  String " " (String "009" (String "013" (String "010" EmptyString))).
Definition quotes : string := String "'" (String Str.dquote EmptyString).
Definition escape : string := "\".
Definition escapedquotes : string := String Str.dquote EmptyString.

(** [self.state]: [' '], ['a'], a quote character, an escape character,
    or [None] after the end of the input. *)
Inductive lexstate : Type :=
  | In_space
  | In_word
  | In_quote (q : ascii)
  | In_escape (e : ascii)
  | At_eof.

(** The end of [read_token]: an empty token that was never quoted is
    [None], the lexer's [eof], and ends the iteration; any other token is
    produced and the iteration goes on with [rest]. *)
Definition emit (quoted : bool) (token : string)
    (rest : exception + list string) : exception + list string :=
  if negb quoted && Str.is_empty token then inr []
  else match rest with
       | inl e => inl e
       | inr ts => inr (token :: ts)
       end.

(** [escapedstate in self.quotes and nextchar != self.state and
    nextchar != escapedstate] *)
Definition keeps_escape (escapedstate : lexstate) (e c : ascii) : bool :=
  match escapedstate with
  | In_quote q => negb (Ascii.eqb c e) && negb (Ascii.eqb c q)
  | _ => false
  end.

(** [list(lex)]: the loop of [read_token], one character per step, inside
    the loop over the tokens.  At every [break] the token is emitted and
    the next call of [read_token] starts from [quoted = False],
    [escapedstate = ' '] and [token = ''], with [self.state] kept. *)
Fixpoint tokens (state : lexstate) (quoted : bool) (escapedstate : lexstate)
    (token : string) (instream : string) : exception + list string :=
  match instream with
  | EmptyString =>
      match state with
      | At_eof => emit quoted EmptyString (inr [])
      | In_space | In_word => emit quoted token (inr [])
      | In_quote _ => inl (ValueError "No closing quotation")
      | In_escape _ => inl (ValueError "No escaped character")
      end
  | String nextchar rest =>
      match state with
      | At_eof =>
          emit quoted EmptyString (tokens At_eof false In_space EmptyString rest)
      | In_space =>
          if Str.mem nextchar whitespace then
            if negb (Str.is_empty token) || quoted
            then emit quoted token (tokens In_space false In_space EmptyString rest)
            else tokens In_space quoted escapedstate token rest
          else if Str.mem nextchar escape then
            tokens (In_escape nextchar) quoted In_word token rest
          else if Str.mem nextchar quotes then
            tokens (In_quote nextchar) quoted escapedstate token rest
          else
            (* a word character, or any other one under whitespace_split *)
            tokens In_word quoted escapedstate (String nextchar EmptyString) rest
      | In_quote q =>
          if Ascii.eqb nextchar q then
            tokens In_word true escapedstate token rest
          else if Str.mem nextchar escape && Str.mem q escapedquotes then
            tokens (In_escape nextchar) true (In_quote q) token rest
          else
            tokens (In_quote q) true escapedstate (Str.snoc token nextchar) rest
      | In_escape e =>
          let token :=
            if keeps_escape escapedstate e nextchar then Str.snoc token e
            else token in
          tokens escapedstate quoted escapedstate (Str.snoc token nextchar) rest
      | In_word =>
          if Str.mem nextchar whitespace then
            if negb (Str.is_empty token) || quoted
            then emit quoted token (tokens In_space false In_space EmptyString rest)
            else tokens In_space quoted escapedstate token rest
          else if Str.mem nextchar quotes then
            tokens (In_quote nextchar) quoted escapedstate token rest
          else if Str.mem nextchar escape then
            tokens (In_escape nextchar) quoted In_word token rest
          else
            tokens In_word quoted escapedstate (Str.snoc token nextchar) rest
      end
  end.

(** [shlex.split(s)] *)
Definition split (s : string) : exception + list string :=
  tokens In_space false In_space EmptyString s.

End shlex.

(** ** The host the adapter runs on *)

(** [pathlib.Path] values, as the adapter builds them: [Path(s)] and
    [p / name]. *)
Inductive Path : Type :=
  | PathOf (s : string)
  | PathDiv (p : Path) (name : string).

Global Instance Path_eq_dec : EqDecision Path.
Proof. solve_decision. Defined.

(** What the adapter reads from its host: [os.environ], [Path.exists] and
    [subprocess.check_output(argv, text=True)], which returns the output of
    the command or raises. *)
Record Host : Type := {
  environ : gmap string string;
  path_exists : Path → bool;
  check_output : list string → exception + string;
}.

(** What the adapter does to its host while it resolves the binary. *)
Inductive event : Type :=
  | Ev_exists (p : Path)
  | Ev_subprocess (argv : list string).

(** Computations that probe the host and may raise: the probes made, in
    order, and the value returned or the exception raised. *)
Definition io (A : Type) : Type := list event * (exception + A).

Definition ret {A} (a : A) : io A := ([], inr a).

Definition bind {A B} (m : io A) (k : A → io B) : io B :=
  match m with
  | (tr, inl e) => (tr, inl e)
  | (tr, inr a) => let '(tr', r) := k a in (tr ++ tr', r)
  end.

Declare Scope io_scope.
Delimit Scope io_scope with io.
Notation "x <- m ;; k" := (bind m (fun x => k))
  (at level 100, m at next level, right associativity) : io_scope.

Definition raise {A} (e : exception) : io A := ([], inl e).

(** [try: m except <caught>: handler] *)
Definition try_except {A} (m : io A) (caught : exception → bool) (handler : io A) : io A :=
  match m with
  | (tr, inl e) =>
      if caught e then let '(tr', r) := handler in (tr ++ tr', r) else (tr, inl e)
  | (tr, inr a) => (tr, inr a)
  end.

(** [bool(s)] for an optional string: [None] and [''] are falsy. *)
Definition truthy (o : option string) : option string :=
  match o with
  | Some s => if Str.is_empty s then None else Some s
  | None => None
  end.

(** ** The agent *)

(** The attributes of [self] the three methods read.  [model_name],
    [_extra_env] and [logs_dir] are set by the constructor of Harbor's
    [BaseInstalledAgent]. *)
Record DiligentAgent : Type := {
  model_name : option string;
  _extra_env : gmap string string;
  logs_dir : Path;
}.

(** Harbor's [ExecInput], with the fields the adapter sets. *)
Record ExecInput : Type := {
  command : string;
  env : option (gmap string string);
  timeout_sec : option Z;
}.

(** [Path(repo_root) / "dist" / "diligent-linux-x64"], for the output of
    [git rev-parse --show-toplevel]. *)
Definition fallback_candidate (git_output : string) : Path :=
  let repo_root := Str.strip git_output in
  PathDiv (PathDiv (PathOf repo_root) "dist") "diligent-linux-x64".

Section Resolver.

Variable host : Host.

Local Open Scope io_scope.

Definition exists_ (p : Path) : io bool := ([Ev_exists p], inr (path_exists host p)).

Definition run (argv : list string) : io string :=
  ([Ev_subprocess argv], check_output host argv).

Definition git_toplevel : list string := ["git"; "rev-parse"; "--show-toplevel"].

(** [except (subprocess.CalledProcessError, FileNotFoundError)] *)
Definition caught_by_resolver (e : exception) : bool :=
  match e with
  | CalledProcessError | FileNotFoundError _ => true
  | _ => false
  end.

Definition not_found_message : string :=
  "Cannot find diligent-linux-x64 binary. " +:+
  "Either set DILIGENT_BINARY_PATH or run 'bun run build:linux-x64' first.".

(** The [try] block of [_resolve_binary_path]: [Some candidate] when it
    returns from the method, [None] when control falls out of it. *)
Definition auto_detect : io (option Path) :=
  try_except
    (out <- run git_toplevel ;;
     let candidate := fallback_candidate out in
     found <- exists_ candidate ;;
     if found then ret (Some candidate) else ret None)
    caught_by_resolver
    (ret None).

Definition _resolve_binary_path : io Path :=
  match truthy (environ host !! "DILIGENT_BINARY_PATH") with
  | Some env_path =>
      let p := PathOf env_path in
      found <- exists_ p ;;
      if found then ret p
      else raise (FileNotFoundError
                    ("DILIGENT_BINARY_PATH=" +:+ env_path +:+ " does not exist"))
  | None =>
      r <- auto_detect ;;
      match r with
      | Some candidate => ret candidate
      | None => raise (FileNotFoundError not_found_message)
      end
  end.

End Resolver.

(** ** The commands of a run *)

Section Commands.

(** [os.environ] *)
Variable os_environ : gmap string string.

(** Harbor's [EnvironmentPaths.agent_dir], formatted into the commands. *)
Variable agent_dir : string.

Definition api_keys : list string := ["ANTHROPIC_API_KEY"; "OPENAI_API_KEY"].

(** [for key in (...): if key in os.environ: env[key] = os.environ[key]] *)
Definition forward_api_keys (env : gmap string string) : gmap string string :=
  foldl (fun env key =>
           match os_environ !! key with
           | Some v => <[key := v]> env
           | None => env
           end) env api_keys.

(** The model the agent is given: [model_name] with its provider removed,
    [model_id.split("/", 1)[1]], when it has a ["/"]. *)
Definition model_id_of (model_name : string) : option string :=
  if Str.mem "/" model_name then Str.split1 "/" model_name !! 1%nat
  else Some model_name.

(** [if self.model_name: ... env["DILIGENT_MODEL"] = model_id]; indexing
    the split out of range would raise [IndexError]. *)
Definition forward_model (self : DiligentAgent) (env : gmap string string)
    : exception + gmap string string :=
  match truthy (model_name self) with
  | Some name =>
      match model_id_of name with
      | Some model_id => inr (<["DILIGENT_MODEL" := model_id]> env)
      | None => inl (OtherError "IndexError")
      end
  | None => inr env
  end.

(** [env.update(self._extra_env)] *)
Definition update (env extra : gmap string string) : gmap string string :=
  extra ∪ env.

Definition run_command (instruction : string) : string :=
  "/installed-agent/diligent --prompt " +:+ shlex.quote instruction.

Definition collect_command : string :=
  "mkdir -p " +:+ agent_dir +:+
  "/sessions && find / -path '*/.diligent/sessions/*.jsonl' -exec cp {} " +:+
  agent_dir +:+ "/sessions/ \; 2>/dev/null; true".

Definition create_run_agent_commands (self : DiligentAgent) (instruction : string)
    : exception + list ExecInput :=
  let escaped := shlex.quote instruction in
  let env := forward_api_keys ∅ in
  match forward_model self env with
  | inl e => inl e
  | inr env =>
      let env := update env (_extra_env self) in
      inr [ {| command := "/installed-agent/diligent --prompt " +:+ escaped;
               env := Some env;
               timeout_sec := Some 600 |};
            {| command := collect_command;
               env := None;
               timeout_sec := Some 30 |} ]
  end.

End Commands.

(** ** Session logs and the usage they report *)

(** What [json.loads] returns: [None], [bool], [int], [float], [str],
    [list] and [dict]; a [dict] is the list of its items, each key once,
    read with [assoc].  A [float] is an IEEE 754 binary64 number. *)
#[local] Set Warnings "-register-all".
Inductive json : Type :=
  | JNull
  | JBool (b : bool)
  | JInt (n : Z)
  | JFloat (x : PrimFloat.float)
  | JStr (s : string)
  | JList (l : list json)
  | JDict (items : list (string * json)).

Fixpoint assoc (key : string) (items : list (string * json)) : option json :=
  match items with
  | [] => None
  | (k, v) :: items' => if String.eqb k key then Some v else assoc key items'
  end.

(** Sequencing of steps that may raise. *)
Definition and_then {A B} (m : exception + A) (k : A → exception + B) : exception + B :=
  match m with
  | inl e => inl e
  | inr a => k a
  end.

Declare Scope raise_scope.
Delimit Scope raise_scope with raises.
Notation "x <- m ;; k" := (and_then m (fun x => k))
  (at level 100, m at next level, right associativity) : raise_scope.

(** [for x in xs: acc = body(acc, x)], stopping at the first exception. *)
Fixpoint for_each {A S} (body : S → A → exception + S) (acc : S) (xs : list A)
    : exception + S :=
  match xs with
  | [] => inr acc
  | x :: xs' => and_then (body acc x) (fun acc' => for_each body acc' xs')
  end.

(** [v.get(key, default)]: only a [dict] has the method. *)
Definition get (v : json) (key : string) (dflt : json) : exception + json :=
  match v with
  | JDict items => inr (default dflt (assoc key items))
  | _ => inl AttributeError
  end.

(** [v != s] for a string literal [s]. *)
Definition differs_from (v : json) (s : string) : bool :=
  match v with
  | JStr t => negb (String.eqb t s)
  | _ => true
  end.

(** The numbers a total can be: an [int], or a [float] once a [float] has
    been added to it. *)
Inductive number : Type :=
  | Int (n : Z)
  | Float (x : PrimFloat.float).

(** [float(n)] for an [int]: the nearest binary64 number, ties to even, and
    [OverflowError] when that is out of range. *)
Definition to_float (n : Z) : exception + PrimFloat.float :=
  let x := FloatOps.SF2Prim
             (SpecFloat.binary_normalize FloatOps.prec FloatOps.emax n 0 false) in
  if PrimFloat.is_infinity x then inl OverflowError else inr x.

(** [a + b]: the sum of two [int]s is exact; with a [float] on either side
    the other side is converted and the sum is the rounded one. *)
Definition num_add (a b : number) : exception + number :=
  match a, b with
  | Int m, Int n => inr (Int (m + n))
  | Int m, Float y => and_then (to_float m) (fun x => inr (Float (PrimFloat.add x y)))
  | Float x, Int n => and_then (to_float n) (fun y => inr (Float (PrimFloat.add x y)))
  | Float x, Float y => inr (Float (PrimFloat.add x y))
  end.

(** The values that are numbers: [int], [float], and [bool] as 0 or 1. *)
Definition as_number (v : json) : option number :=
  match v with
  | JInt n => Some (Int n)
  | JBool b => Some (Int (if b then 1 else 0))
  | JFloat x => Some (Float x)
  | _ => None
  end.

(** [total += v]: adding [None], a [str], a [list] or a [dict] to a number
    raises [TypeError]. *)
Definition add (total : number) (v : json) : exception + number :=
  match as_number v with
  | Some n => num_add total n
  | None => inl TypeError
  end.

(** [n > 0] *)
Definition is_positive (n : number) : bool :=
  match n with
  | Int m => 0 <? m
  | Float x => PrimFloat.ltb PrimFloat.zero x
  end.

(** The three accumulators of [populate_context_post_run]. *)
Record Totals : Type := {
  total_input : number;
  total_output : number;
  total_cache : number;
}.

(** A file of the sessions directory: its name, the lines that iterating
    over the open file yields, and the exception, if any, that ends the
    reading: the one [open] raises (then there are no lines) or the one the
    iteration raises after the lines it could yield. *)
Record File : Type := {
  file_name : string;
  file_lines : list string;
  file_fails : option exception;
}.

(** Harbor's [AgentContext], with the fields the adapter writes. *)
Record AgentContext : Type := {
  n_input_tokens : option number;
  n_cache_tokens : option number;
  n_output_tokens : option number;
}.

Section Aggregator.

(** [json.loads]: the decoded value or the exception raised. *)
Variable json_loads : string → exception + json.

(** The directories of the host: the files of the directory at a path, or
    [None] when nothing exists there. *)
Variable read_dir : Path → option (list File).

Local Open Scope raise_scope.

(** The body of [for line in f]. *)
Definition process_line (t : Totals) (line : string) : exception + Totals :=
  let line := Str.strip line in
  if Str.is_empty line then inr t
  else
    match json_loads line with
    | inl JSONDecodeError => inr t
    | inl e => inl e
    | inr entry =>
        ty <- get entry "type" JNull ;;
        if differs_from ty "message" then inr t
        else
          msg <- get entry "message" (JDict []) ;;
          role <- get msg "role" JNull ;;
          if differs_from role "assistant" then inr t
          else
            usage <- get msg "usage" (JDict []) ;;
            v <- get usage "inputTokens" (JInt 0) ;;
            total_input <- add (total_input t) v ;;
            v <- get usage "outputTokens" (JInt 0) ;;
            total_output <- add (total_output t) v ;;
            v <- get usage "cacheReadTokens" (JInt 0) ;;
            total_cache <- add (total_cache t) v ;;
            v <- get usage "cacheWriteTokens" (JInt 0) ;;
            total_cache <- add total_cache v ;;
            inr {| total_input := total_input;
                   total_output := total_output;
                   total_cache := total_cache |}
    end.

(** The body of [for jsonl_file in ...]: the lines the file yields, then
    the exception that ends the reading, if there is one. *)
Definition process_file (t : Totals) (f : File) : exception + Totals :=
  t <- for_each process_line t (file_lines f) ;;
  match file_fails f with
  | Some e => inl e
  | None => inr t
  end.

(** [sessions_dir.glob("*.jsonl")], in the order of the directory. *)
Definition glob_jsonl (files : list File) : list File :=
  filter (λ f, Is_true (Str.endswith ".jsonl" (file_name f))) files.

Definition no_usage : Totals :=
  {| total_input := Int 0; total_output := Int 0; total_cache := Int 0 |}.

(** The two loops. *)
Definition aggregate (files : list File) : exception + Totals :=
  for_each process_file no_usage (glob_jsonl files).

(** The three assignments that end the method. *)
Definition report (t : Totals) : AgentContext :=
  {| n_input_tokens := Some (total_input t);
     n_output_tokens := Some (total_output t);
     n_cache_tokens := if is_positive (total_cache t) then Some (total_cache t) else None |}.

(** The method returns nothing: its result is the context it leaves and
    the exception it raised, if any. *)
Definition populate_context_post_run (self : DiligentAgent) (context : AgentContext)
    : AgentContext * option exception :=
  let sessions_dir := PathDiv (logs_dir self) "sessions" in
  match read_dir sessions_dir with
  | None => (context, None)
  | Some files =>
      match aggregate files with
      | inl e => (context, Some e)
      | inr t => (report t, None)
      end
  end.

End Aggregator.


(** ** A decoder for the examples

    [json.loads] restricted to the JSON that session logs are made of:
    objects, arrays, strings without escapes, integers, decimal fractions of
    at most 15 digits, [true], [false] and [null].  Any other text is
    reported as malformed.  The theorems below hold for every decoder; this
    one instantiates them on log lines. *)

Module SampleJson.

Definition is_ws (c : ascii) : bool :=
  Str.mem c (String " " (String "009" (String "010" (String "013" EmptyString)))).

Fixpoint skip_ws (s : string) : string :=
  match s with
  | String c s' => if is_ws c then skip_ws s' else s
  | EmptyString => EmptyString
  end.

Definition digit (c : ascii) : option Z :=
  let n := Z.of_N (N_of_ascii c) in
  if (48 <=? n) && (n <=? 57) then Some (n - 48) else None.

Fixpoint digits (acc : Z) (s : string) : Z * string :=
  match s with
  | String c s' =>
      match digit c with
      | Some d => digits (10 * acc + d) s'
      | None => (acc, s)
      end
  | EmptyString => (acc, s)
  end.

(** [0] or a digit from 1 to 9 followed by digits. *)
Definition natural (s : string) : option (Z * string) :=
  match s with
  | String c s' =>
      match digit c with
      | Some 0 => Some (0, s')
      | Some d => Some (digits d s')
      | None => None
      end
  | EmptyString => None
  end.

(** The digits of a fraction, appended to the digits before the point:
    all the digits as one integer, the number of digits of the fraction,
    and what follows. *)
Fixpoint fraction (acc : Z) (places : nat) (s : string) : Z * nat * string :=
  match s with
  | String c s' =>
      match digit c with
      | Some d => fraction (10 * acc + d) (S places) s'
      | None => (acc, places, s)
      end
  | EmptyString => (acc, places, s)
  end.

(** The float written [m / 10^places], for fewer than 16 digits: [m] and
    the power of ten are binary64 numbers and their quotient, rounded once,
    is the float nearest to the decimal. *)
Definition decimal (negative : bool) (m : Z) (places : nat) : option PrimFloat.float :=
  if (m <? 10 ^ 15) && (Z.of_nat places <=? 22) then
    match to_float m, to_float (10 ^ Z.of_nat places) with
    | inr x, inr p =>
        let q := PrimFloat.div x p in
        Some (if negative then PrimFloat.opp q else q)
    | _, _ => None
    end
  else None.

(** An integer, or an integer, a point and a fraction. *)
Definition unsigned (negative : bool) (s : string) : option (json * string) :=
  match natural s with
  | Some (n, String "." s1 as rest) =>
      match fraction n 0 s1 with
      | (_, O, _) => Some (JInt (if negative then - n else n), rest)
      | (m, places, s2) =>
          match decimal negative m places with
          | Some x => Some (JFloat x, s2)
          | None => None
          end
      end
  | Some (n, rest) => Some (JInt (if negative then - n else n), rest)
  | None => None
  end.

Definition number (s : string) : option (json * string) :=
  match s with
  | String "-" s' => unsigned true s'
  | _ => unsigned false s
  end.

(** The characters of a string up to its closing quote. *)
Fixpoint chars (s : string) : option (string * string) :=
  match s with
  | EmptyString => None
  | String c s' =>
      if Ascii.eqb c Str.dquote then Some (EmptyString, s')
      else if Ascii.eqb c "\" || (N_of_ascii c <? 32)%N then None
      else prod_map (String c) id <$> chars s'
  end.

Fixpoint after (prefix s : string) : option string :=
  match prefix, s with
  | EmptyString, _ => Some s
  | String a p', String b s' => if Ascii.eqb a b then after p' s' else None
  | String _ _, EmptyString => None
  end.

(** [d[key] = v] on the items of a [dict]. *)
Fixpoint set_item (key : string) (v : json) (items : list (string * json))
    : list (string * json) :=
  match items with
  | [] => [(key, v)]
  | (k, w) :: items' =>
      if String.eqb k key then (k, v) :: items'
      else (k, w) :: set_item key v items'
  end.

Fixpoint value (fuel : nat) (s : string) : option (json * string) :=
  match fuel with
  | O => None
  | S fuel =>
      match skip_ws s with
      | String "{" s1 =>
          match skip_ws s1 with
          | String "}" s2 => Some (JDict [], s2)
          | s2 => prod_map JDict id <$> members fuel s2 []
          end
      | String "[" s1 =>
          match skip_ws s1 with
          | String "]" s2 => Some (JList [], s2)
          | s2 => prod_map JList id <$> elements fuel s2 []
          end
      | String c s1 as s0 =>
          if Ascii.eqb c Str.dquote then prod_map JStr id <$> chars s1
          else match after "true" s0, after "false" s0, after "null" s0 with
               | Some r, _, _ => Some (JBool true, r)
               | _, Some r, _ => Some (JBool false, r)
               | _, _, Some r => Some (JNull, r)
               | _, _, _ => number s0
               end
      | EmptyString => None
      end
  end

with members (fuel : nat) (s : string) (acc : list (string * json))
    : option (list (string * json) * string) :=
  match fuel with
  | O => None
  | S fuel =>
      match s with
      | String c s1 =>
          if Ascii.eqb c Str.dquote then
            match chars s1 with
            | Some (key, s2) =>
                match skip_ws s2 with
                | String ":" s3 =>
                    match value fuel s3 with
                    | Some (v, s4) =>
                        let acc := set_item key v acc in
                        match skip_ws s4 with
                        | String "}" s5 => Some (acc, s5)
                        | String "," s5 => members fuel (skip_ws s5) acc
                        | _ => None
                        end
                    | None => None
                    end
                | _ => None
                end
            | None => None
            end
          else None
      | EmptyString => None
      end
  end

with elements (fuel : nat) (s : string) (acc : list json)
    : option (list json * string) :=
  match fuel with
  | O => None
  | S fuel =>
      match value fuel s with
      | Some (v, s1) =>
          match skip_ws s1 with
          | String "]" s2 => Some (acc ++ [v], s2)
          | String "," s2 => elements fuel s2 (acc ++ [v])
          | _ => None
          end
      | None => None
      end
  end.

Definition loads (s : string) : exception + json :=
  match value (S (String.length s)) s with
  | Some (v, rest) =>
      if Str.is_empty (skip_ws rest) then inr v else inl JSONDecodeError
  | None => inl JSONDecodeError
  end.

(** A line of a session log: the text between the braces, with ['] written
    for the double quote. *)
Definition line (body : string) : string :=
  "{" +:+ Str.replace_char "'" (String Str.dquote EmptyString) body +:+ "}" +:+ String "010" EmptyString.

End SampleJson.

(** The variable of the override, [os.environ.get("DILIGENT_BINARY_PATH")]. *)
Definition override_var : string := "DILIGENT_BINARY_PATH".

(** The exception [_resolve_binary_path] raises for an override that does
    not exist. *)
Definition override_missing (env_path : string) : exception :=
  FileNotFoundError ("DILIGENT_BINARY_PATH=" +:+ env_path +:+ " does not exist").

(** The host with [DILIGENT_BINARY_PATH] removed from its environment. *)
Definition without_override (host : Host) : Host :=
  {| environ := delete "DILIGENT_BINARY_PATH" (environ host);
     path_exists := path_exists host;
     check_output := check_output host |}.

(** [self.logs_dir / "sessions"] *)
Definition sessions_dir (self : DiligentAgent) : Path := PathDiv (logs_dir self) "sessions".

(** Totals that are three [int]s. *)
Definition ints (a b c : Z) : Totals :=
  {| total_input := Int a; total_output := Int b; total_cache := Int c |}.

(** What is raised, or the three integers of the totals. *)
Definition of_ints (r : exception + Z * Z * Z) : exception + Totals :=
  match r with
  | inl e => inl e
  | inr (a, b, c) => inr (ints a b c)
  end.

(** A step of the aggregation that, on integer totals, either raises or
    adds three integers of its own to them. *)
Definition shifts {A} (body : Totals → A → exception + Totals) (x : A) : Prop :=
  ∃ r : exception + Z * Z * Z, ∀ a b c,
    body (ints a b c) x =
      match r with
      | inl e => inl e
      | inr (i, o, k) => inr (ints (a + i) (b + o) (c + k))
      end.

(** Two results that are the same totals, or both an exception. *)
Definition same_totals (r1 r2 : exception + Totals) : Prop :=
  match r1, r2 with
  | inr a, inr b => a = b
  | inl _, inl _ => True
  | _, _ => False
  end.

(** A log entry of type [message], with the role and the usage record of
    its message. *)
Definition message_entry (role : string) (usage : list (string * json)) : json :=
  JDict [("type", JStr "message");
         ("message", JDict [("role", JStr role); ("usage", JDict usage)])].

(** An [AgentContext] as Harbor creates it: no field set. *)
Definition fresh_context : AgentContext :=
  {| n_input_tokens := None; n_cache_tokens := None; n_output_tokens := None |}.

(** ** Sample inputs *)

(** A host with the given environment variables and existing paths, on
    which every command gives [git]. *)
Definition sample_host (vars : list (string * string)) (present : list Path)
    (git : exception + string) : Host :=
  {| environ := list_to_map vars;
     path_exists := λ p, bool_decide (p ∈ present);
     check_output := λ argv, git |}.

(** What [git rev-parse --show-toplevel] prints in a checkout at [/repo]. *)
Definition repo_line : string := "/repo" +:+ String "010" EmptyString.

(** An agent configured with a model and extra environment. *)
Definition sample_agent (model : option string) (extra : list (string * string))
    : DiligentAgent :=
  {| model_name := model;
     _extra_env := list_to_map extra;
     logs_dir := PathOf "/trial/agent" |}.

(** A host on which [p] is a directory with the given files and nothing
    else exists. *)
Definition only_dir (p : Path) (files : list File) : Path → option (list File) :=
  λ q, if decide (q = p) then Some files else None.

(** A host without directories. *)
Definition no_dirs : Path → option (list File) := λ _, None.

Definition assistant_line_1 : string :=
  SampleJson.line
    "'type':'message','message':{'role':'assistant','usage':{'inputTokens':10,'outputTokens':5}}".

Definition assistant_line_2 : string :=
  SampleJson.line
    "'type':'message','message':{'role':'assistant','usage':{'inputTokens':3,'outputTokens':2,'cacheReadTokens':1}}".

Definition user_line : string :=
  SampleJson.line
    "'type':'message','message':{'role':'user','usage':{'inputTokens':100,'outputTokens':50,'cacheWriteTokens':7}}".

Definition malformed_line : string := "{'type': 'message', " +:+ String "010" EmptyString.

(** ** Staging the binary *)

(** What [setup] does, in order: the probes of [_resolve_binary_path],
    [shutil.copy2(src, dst)] and [super().setup(...)]. *)
Inductive setup_step : Type :=
  | Step_probe (e : event)
  | Step_copy2 (src dst : Path)
  | Step_super_setup.

(** What [setup] calls besides the resolver: [shutil.copy2] and the
    [setup] of Harbor's [BaseInstalledAgent]; each returns nothing or
    raises. *)
Record Staging : Type := {
  copy2 : Path → Path → option exception;
  super_setup : option exception;
}.

(** [setup]: the steps taken and the exception raised, if any. *)
Definition setup (host : Host) (staging : Staging) (self : DiligentAgent)
    : list setup_step * option exception :=
  match _resolve_binary_path host with
  | (probes, inl e) => (Step_probe <$> probes, Some e)
  | (probes, inr binary_path) =>
      let dest := PathDiv (logs_dir self) "diligent-linux-x64" in
      match copy2 staging binary_path dest with
      | Some e => ((Step_probe <$> probes) ++ [Step_copy2 binary_path dest], Some e)
      | None =>
          ((Step_probe <$> probes) ++ [Step_copy2 binary_path dest; Step_super_setup],
           super_setup staging)
      end
  end.

(** A string of white space only (the empty one included). *)
Fixpoint all_space (s : string) : bool :=
  match s with
  | EmptyString => true
  | String c s' => Str.isspace c && all_space s'
  end.

(** What a field of a usage record counts for: 0 when the record has no
    such field, the number when it is an [int] or a [float], 0 or 1 when it
    is a [bool]; any other value is not a number. *)
Definition count (usage : list (string * json)) (key : string) : option number :=
  match assoc key usage with
  | None => Some (Int 0)
  | Some v => as_number v
  end.

(** The four counts of a usage record, in the order the method adds them. *)
Definition count_keys : list string :=
  ["inputTokens"; "outputTokens"; "cacheReadTokens"; "cacheWriteTokens"].

Definition is_float (o : option json) : bool :=
  match o with
  | Some (JFloat _) => true
  | _ => false
  end.

(** Whether a decoded line is a message of the assistant whose usage record
    has a [float] for one of its four counts. *)
Definition float_count (entry : json) : bool :=
  match entry with
  | JDict items =>
      if differs_from (default JNull (assoc "type" items)) "message" then false
      else
        match assoc "message" items with
        | Some (JDict message) =>
            if differs_from (default JNull (assoc "role" message)) "assistant" then false
            else
              match assoc "usage" message with
              | Some (JDict usage) => existsb (λ key, is_float (assoc key usage)) count_keys
              | _ => false
              end
        | _ => false
        end
  | _ => false
  end.

(** The lines of a file have integer counts: none decodes to a message of
    the assistant with a [float] count. *)
Definition integer_lines (json_loads : string → exception + json) (lines : list string)
    : Prop :=
  ∀ line entry, line ∈ lines → json_loads (Str.strip line) = inr entry →
    float_count entry = false.

(** The same, for the [.jsonl] files of a directory. *)
Definition integer_counts (json_loads : string → exception + json) (files : list File)
    : Prop :=
  ∀ f, f ∈ files → Is_true (Str.endswith ".jsonl" (file_name f)) →
    integer_lines json_loads (file_lines f).

(** A file that is read to its end. *)
Definition readable (name : string) (lines : list string) : File :=
  {| file_name := name; file_lines := lines; file_fails := None |}.

(** A message of the assistant with the given input count. *)
Definition input_line (count : string) : string :=
  SampleJson.line
    ("'type':'message','message':{'role':'assistant','usage':{'inputTokens':" +:+ count +:+ "}}").

(** A decoder that fails on every text with an exception of its own. *)
Definition broken_decoder : string → exception + json :=
  λ _, inl (OtherError "RecursionError").

(** A staging in which the copy and the base class both succeed. *)
Definition staging_ok : Staging := {| copy2 := λ _ _, None; super_setup := None |}.

(** * Properties *)

#[local] Arguments String.append !_ _ : simpl nomatch.

(** ** Strings *)

Lemma append_empty_r (s : string) : s +:+ EmptyString = s.
Proof. induction s as [|c s IH]; simpl; [reflexivity | by f_equal]. Qed.

Lemma snoc_append (s : string) (c : ascii) (r : string) :
  Str.snoc s c +:+ r = s +:+ String c r.
Proof.
  unfold Str.snoc. induction s as [|d s IH]; simpl; [reflexivity | by f_equal].
Qed.

Lemma snoc_not_empty (s : string) (c : ascii) : Str.is_empty (Str.snoc s c) = false.
Proof. by destruct s. Qed.

Example strip_line : Str.strip ("  {} " +:+ String "013" (String "010" EmptyString)) = "{}".
Proof. reflexivity. Qed.

Example strip_blank : Str.strip (String "009" (String "010" EmptyString)) = EmptyString.
Proof. reflexivity. Qed.

Example split1_twice : Str.split1 "/" "a/b/c" = ["a"; "b/c"].
Proof. reflexivity. Qed.

Example endswith_jsonl :
  Str.endswith ".jsonl" "run.jsonl" = true ∧ Str.endswith ".jsonl" "run.jsonl.bak" = false.
Proof. split; reflexivity. Qed.

(** ** [shlex]: what is quoted is read back *)

Module shlex_facts.
Import shlex.

(** A character that needs no quoting means nothing to the lexer. *)
Lemma safe_is_plain (c : ascii) :
  is_safe c = true →
  Str.mem c whitespace = false ∧ Str.mem c quotes = false ∧ Str.mem c escape = false.
Proof.
  destruct c as [[] [] [] [] [] [] [] []]; vm_compute; intros H;
    first [discriminate H | repeat split].
Qed.

Section Any_character.

#[local] Arguments Str.mem : simpl never.

(** Inside a word, safe characters pile up until the end of the input. *)
Lemma tokens_word (s : string) : ∀ (quoted : bool) (esc : lexstate) (token : string),
  no_unsafe s = true →
  negb (Str.is_empty token) || quoted = true →
  tokens In_word quoted esc token s = inr [token +:+ s].
Proof.
  induction s as [|c s IH]; intros quoted esc token Hsafe Htok.
  - rewrite append_empty_r. simpl. unfold emit.
    destruct quoted, (Str.is_empty token); simpl in *; done.
  - simpl in Hsafe. apply andb_prop in Hsafe as [Hc Hs].
    destruct (safe_is_plain c Hc) as (Hw & Hq & He).
    rewrite <- (snoc_append token c s). simpl.
    rewrite Hw, Hq, He, IH; [done..|].
    by rewrite snoc_not_empty.
Qed.

(** Inside single quotes every character is taken as it is, and the
    replacement of a single quote leaves one single quote in the token
    and the lexer inside single quotes again. *)
Lemma tokens_single_quoted (s : string) : ∀ (quoted : bool) (esc : lexstate) (token : string),
  tokens (In_quote "'") quoted esc token
    (Str.replace_char "'" squote_escaped s +:+ "'") = inr [token +:+ s].
Proof.
  induction s as [|c s IH]; intros quoted esc token.
  - rewrite append_empty_r. reflexivity.
  - simpl Str.replace_char. destruct (Ascii.eqb c "'") eqn:Hc.
    + apply Ascii.eqb_eq in Hc as ->.
      change (tokens (In_quote "'") true esc (Str.snoc token "'")
                (Str.replace_char "'" squote_escaped s +:+ "'")
              = inr [token +:+ String "'" s]).
      by rewrite IH, snoc_append.
    + rewrite <- (snoc_append token c s). simpl.
      change (Str.mem "'" escapedquotes) with false.
      by rewrite Hc, andb_false_r, IH.
Qed.

(** [split(quote(s)) == [s]], from the state the lexer is in between two
    arguments. *)
Lemma tokens_quote (s : string) :
  tokens In_space false In_space EmptyString (quote s) = inr [s].
Proof.
  unfold quote. destruct s as [|c s]; [reflexivity|]. simpl Str.is_empty. cbv iota.
  destruct (no_unsafe (String c s)) eqn:Hsafe.
  - simpl in Hsafe. apply andb_prop in Hsafe as [Hc Hs].
    destruct (safe_is_plain c Hc) as (Hw & Hq & He).
    simpl. rewrite Hw, Hq, He. by rewrite tokens_word.
  - change (tokens (In_quote "'") false In_space EmptyString
              (Str.replace_char "'" squote_escaped (String c s) +:+ "'")
            = inr [String c s]).
    by rewrite tokens_single_quoted.
Qed.

Lemma split_quote (s : string) : split (quote s) = inr [s].
Proof. apply tokens_quote. Qed.

End Any_character.

(** The words of the run command before the quoted prompt. *)
Lemma split_run_prefix (rest : string) :
  split ("/installed-agent/diligent --prompt " +:+ rest) =
  match tokens In_space false In_space EmptyString rest with
  | inl e => inl e
  | inr ts => inr ("/installed-agent/diligent" :: "--prompt" :: ts)
  end.
Proof.
  unfold split. simpl. unfold emit. simpl.
  by destruct (tokens In_space false In_space EmptyString rest).
Qed.

End shlex_facts.

(** ** Resolving the binary *)

(** C2. An override [DILIGENT_BINARY_PATH] that names a path that does not
    exist makes [_resolve_binary_path] raise [FileNotFoundError] naming the
    path; the only probe of the host is the test of that path, so the search
    under the git repository root is never started. *)
Theorem missing_override_is_fatal (host : Host) (env_path : string) :
  environ host !! override_var = Some env_path →
  env_path ≠ EmptyString →
  path_exists host (PathOf env_path) = false →
  _resolve_binary_path host =
    ([Ev_exists (PathOf env_path)], inl (override_missing env_path))
  ∧ Ev_subprocess git_toplevel ∉ (_resolve_binary_path host).1.
Proof.
  intros Henv Hne Hmissing.
  assert (_resolve_binary_path host =
    ([Ev_exists (PathOf env_path)], inl (override_missing env_path))) as Hres.
  { unfold _resolve_binary_path. fold override_var. rewrite Henv.
    destruct env_path as [|c r]; [done|]. simpl. by rewrite Hmissing. }
  split; [exact Hres|]. rewrite Hres. simpl.
  intros Hin. apply list_elem_of_singleton in Hin. discriminate Hin.
Qed.


Lemma missing_override_is_fatal_witness :
  let host := sample_host [("DILIGENT_BINARY_PATH", "/opt/diligent")] [] (inr "/repo") in
  _resolve_binary_path host =
    ([Ev_exists (PathOf "/opt/diligent")], inl (override_missing "/opt/diligent"))
  ∧ Ev_subprocess git_toplevel ∉ (_resolve_binary_path host).1.
Proof.
  intros host.
  apply (missing_override_is_fatal host "/opt/diligent");
    [reflexivity | discriminate | reflexivity].
Defined.

(** The message of the last [raise] names both ways out. *)
Lemma not_found_message_remedies :
  Str.contains "set DILIGENT_BINARY_PATH" not_found_message = true ∧
  Str.contains "run 'bun run build:linux-x64'" not_found_message = true.
Proof. split; vm_compute; reflexivity. Qed.

(** Without an override the method is the search under the repository. *)
Lemma resolve_without_override (host : Host) :
  truthy (environ host !! override_var) = None →
  _resolve_binary_path host =
    match auto_detect host with
    | (tr, inr (Some candidate)) => (tr, inr candidate)
    | (tr, inr None) => (tr, inl (FileNotFoundError not_found_message))
    | (tr, inl e) => (tr, inl e)
    end.
Proof.
  intros H. unfold _resolve_binary_path. fold override_var. rewrite H.
  destruct (auto_detect host) as [tr [e|[c|]]]; simpl; by rewrite ?app_nil_r.
Qed.

(** C3. With no override configured (the variable unset or empty), when
    git names a repository root under which [dist/diligent-linux-x64] does
    not exist, or git fails with one of the two exceptions the method
    catches, [_resolve_binary_path] raises [FileNotFoundError] with a
    message that mentions setting [DILIGENT_BINARY_PATH] and running the
    build step. *)
Theorem missing_fallback_names_remedies (host : Host) :
  truthy (environ host !! override_var) = None →
  (∃ out, check_output host git_toplevel = inr out ∧
          path_exists host (fallback_candidate out) = false)
  ∨ (∃ e, check_output host git_toplevel = inl e ∧ caught_by_resolver e = true) →
  ∃ msg, (_resolve_binary_path host).2 = inl (FileNotFoundError msg)
    ∧ Str.contains "set DILIGENT_BINARY_PATH" msg = true
    ∧ Str.contains "run 'bun run build:linux-x64'" msg = true.
Proof.
  intros Hunset Hgit. exists not_found_message.
  split; [|exact not_found_message_remedies].
  rewrite (resolve_without_override host Hunset).
  unfold auto_detect, run, exists_, bind, try_except.
  destruct Hgit as [(out & -> & ->) | (e & -> & ->)]; reflexivity.
Qed.

Lemma missing_fallback_names_remedies_witness :
  ∃ msg, (_resolve_binary_path (sample_host [] [] (inr repo_line))).2
         = inl (FileNotFoundError msg)
    ∧ Str.contains "set DILIGENT_BINARY_PATH" msg = true
    ∧ Str.contains "run 'bun run build:linux-x64'" msg = true.
Proof.
  apply (missing_fallback_names_remedies (sample_host [] [] (inr repo_line)));
    [reflexivity|].
  left. exists repo_line. split; reflexivity.
Defined.

(** The search under the repository starts by running git. *)
Lemma auto_detect_runs_git (host : Host) :
  ∃ tr, (auto_detect host).1 = Ev_subprocess git_toplevel :: tr.
Proof.
  unfold auto_detect, run, exists_, bind, try_except.
  destruct (check_output host git_toplevel) as [e|out]; simpl.
  - destruct (caught_by_resolver e); simpl; eauto.
  - destruct (path_exists host (fallback_candidate out)); simpl; eauto.
Qed.

(** It raises no [FileNotFoundError] of its own: the one git may raise is
    caught. *)
Lemma auto_detect_not_found (host : Host) (msg : string) :
  (auto_detect host).2 ≠ inl (FileNotFoundError msg).
Proof.
  unfold auto_detect, run, exists_, bind, try_except.
  destruct (check_output host git_toplevel) as [e|out]; simpl.
  - destruct e; simpl; congruence.
  - destruct (path_exists host (fallback_candidate out)); simpl; congruence.
Qed.

(** C10. When [DILIGENT_BINARY_PATH] is set to the empty string,
    [_resolve_binary_path] does what it does with the variable unset: it
    runs [git rev-parse --show-toplevel] first, and it does not raise the
    exception of a missing override. *)
Theorem empty_override_is_ignored (host : Host) :
  environ host !! override_var = Some EmptyString →
  _resolve_binary_path host = _resolve_binary_path (without_override host)
  ∧ (∃ tr, (_resolve_binary_path host).1 = Ev_subprocess git_toplevel :: tr)
  ∧ (_resolve_binary_path host).2 ≠ inl (override_missing EmptyString).
Proof.
  intros Henv.
  assert (truthy (environ host !! override_var) = None) as Hunset
    by (by rewrite Henv).
  assert (truthy (environ (without_override host) !! override_var) = None) as Hunset'.
  { unfold without_override, override_var. simpl. by rewrite lookup_delete_eq. }
  rewrite (resolve_without_override host Hunset).
  rewrite (resolve_without_override _ Hunset').
  change (auto_detect (without_override host)) with (auto_detect host).
  destruct (auto_detect_runs_git host) as [tr Htr].
  pose proof (auto_detect_not_found host) as Hnf.
  destruct (auto_detect host) as [tr' [e|[c|]]]; simpl in *; subst tr'.
  - split; [done|]. split; [by eexists|].
    intros [= ->]. by eapply Hnf.
  - split; [done|]. split; [by eexists|]. discriminate.
  - split; [done|]. split; [by eexists|].
    intros H. vm_compute in H. discriminate H.
Qed.

Lemma empty_override_is_ignored_witness :
  let host := sample_host [("DILIGENT_BINARY_PATH", "")]
                [fallback_candidate repo_line] (inr repo_line) in
  _resolve_binary_path host = _resolve_binary_path (without_override host)
  ∧ (∃ tr, (_resolve_binary_path host).1 = Ev_subprocess git_toplevel :: tr)
  ∧ (_resolve_binary_path host).2 ≠ inl (override_missing EmptyString).
Proof.
  intros host. apply (empty_override_is_ignored host). reflexivity.
Defined.

Example empty_override_finds_build :
  _resolve_binary_path
    (sample_host [("DILIGENT_BINARY_PATH", "")]
       [fallback_candidate repo_line] (inr repo_line))
  = ([Ev_subprocess git_toplevel;
      Ev_exists (PathDiv (PathDiv (PathOf "/repo") "dist") "diligent-linux-x64")],
     inr (PathDiv (PathDiv (PathOf "/repo") "dist") "diligent-linux-x64")).
Proof. vm_compute. reflexivity. Qed.

(** ** The commands of a run *)

Section Model_id.

#[local] Arguments Ascii.eqb : simpl never.

(** [split("/", 1)] cuts at the first ["/"]. *)
Lemma split1_first (provider rest : string) :
Str.mem "/" provider = false →
Str.split1 "/" (provider +:+ String "/" rest) = [provider; rest].
Proof.
induction provider as [|c p IH]; simpl; [done|].
intros H. apply orb_false_elim in H as [Hc Hp].
rewrite Ascii.eqb_sym in Hc. by rewrite Hc, IH.
Qed.

(** A string with a ["/"] has a first one. *)
Lemma first_slash (s : string) :
Str.mem "/" s = true →
∃ provider rest, s = provider +:+ String "/" rest ∧ Str.mem "/" provider = false.
Proof.
induction s as [|c s IH]; simpl; [done|].
destruct (Ascii.eqb "/" c) eqn:Hc; simpl.
- intros _. apply Ascii.eqb_eq in Hc as <-. by exists EmptyString, s.
- intros (p & r & -> & Hp)%IH. exists (String c p), r. simpl. by rewrite Hc.
Qed.

Lemma model_id_of_slash (provider rest : string) :
Str.mem "/" provider = false →
model_id_of (provider +:+ String "/" rest) = Some rest.
Proof.
intros Hp. unfold model_id_of. rewrite split1_first by done.
assert (Str.mem "/" (provider +:+ String "/" rest) = true) as ->; [|done].
clear Hp. induction provider as [|c p IH]; simpl; [done|].
by rewrite IH, orb_true_r.
Qed.

Lemma model_id_of_plain (name : string) :
Str.mem "/" name = false → model_id_of name = Some name.
Proof. intros H. unfold model_id_of. by rewrite H. Qed.

(** Indexing the split never goes out of range. *)
Lemma model_id_of_total (name : string) : ∃ model_id, model_id_of name = Some model_id.
Proof.
destruct (Str.mem "/" name) eqn:H.
- apply first_slash in H as (p & r & -> & Hp). exists r. by apply model_id_of_slash.
- exists name. by apply model_id_of_plain.
Qed.

End Model_id.

Lemma forward_model_total (self : DiligentAgent) (env0 : gmap string string) :
  ∃ env1, forward_model self env0 = inr env1.
Proof.
  unfold forward_model. destruct (truthy (model_name self)) as [name|]; [|eauto].
  destruct (model_id_of_total name) as [model_id ->]. eauto.
Qed.

(** The method raises nothing and returns its two steps in order. *)
Lemma create_run_agent_commands_steps os_environ agent_dir self instruction :
  ∃ overlay,
    forward_model self (forward_api_keys os_environ ∅) = inr overlay ∧
    create_run_agent_commands os_environ agent_dir self instruction =
      inr [ {| command := run_command instruction;
               env := Some (update overlay (_extra_env self));
               timeout_sec := Some 600 |};
            {| command := collect_command agent_dir;
               env := None;
               timeout_sec := Some 30 |} ].
Proof.
  unfold create_run_agent_commands.
  destruct (forward_model_total self (forward_api_keys os_environ ∅)) as [overlay ->].
  by exists overlay.
Qed.

(** C4. For every instruction, [shlex.split] reads the command of the run
    step back as three arguments: the binary, [--prompt], and the
    instruction, character for character. *)
Theorem prompt_is_one_argument
    (os_environ : gmap string string) (agent_dir : string)
    (self : DiligentAgent) (instruction : string) :
  ∃ run collect,
    create_run_agent_commands os_environ agent_dir self instruction = inr [run; collect]
    ∧ shlex.split (command run)
      = inr ["/installed-agent/diligent"; "--prompt"; instruction].
Proof.
  destruct (create_run_agent_commands_steps os_environ agent_dir self instruction)
    as (overlay & _ & ->).
  do 2 eexists. split; [reflexivity|]. simpl. unfold run_command.
  by rewrite shlex_facts.split_run_prefix, shlex_facts.tokens_quote.
Qed.

Example prompt_with_metacharacters :
  run_command "fix 'it'; echo $HOME" =
    "/installed-agent/diligent --prompt 'fix '" +:+ String Str.dquote "'" +:+
    String Str.dquote "'it'" +:+ String Str.dquote "'" +:+ String Str.dquote "'; echo $HOME'"
  ∧ shlex.split (run_command "fix 'it'; echo $HOME")
    = inr ["/installed-agent/diligent"; "--prompt"; "fix 'it'; echo $HOME"].
Proof. split; vm_compute; reflexivity. Qed.

(** C5. For a configured (non-empty) model name, the value the method
    puts under [DILIGENT_MODEL] is the name itself when it has no ["/"],
    and what follows the first ["/"] when it has one; that value is the one
    in the overlay of the run step unless the extra environment of the
    constructor sets [DILIGENT_MODEL] itself. *)
Theorem model_forwarding (self : DiligentAgent) (name : string) :
  model_name self = Some name →
  name ≠ EmptyString →
  ∃ model_id,
    (∀ env0, forward_model self env0 = inr (<["DILIGENT_MODEL" := model_id]> env0))
    ∧ (Str.mem "/" name = false → model_id = name)
    ∧ (∀ provider rest,
         name = provider +:+ String "/" rest → Str.mem "/" provider = false →
         model_id = rest)
    ∧ (∀ os_environ agent_dir instruction,
         _extra_env self !! "DILIGENT_MODEL" = None →
         ∃ run collect overlay,
           create_run_agent_commands os_environ agent_dir self instruction
             = inr [run; collect]
           ∧ env run = Some overlay
           ∧ overlay !! "DILIGENT_MODEL" = Some model_id).
Proof.
  intros Hname Hne.
  destruct (model_id_of_total name) as [model_id Hid]. exists model_id.
  assert (∀ env0, forward_model self env0 = inr (<["DILIGENT_MODEL" := model_id]> env0))
    as Hfwd.
  { intros env0. unfold forward_model. rewrite Hname.
    destruct name; [done|]. simpl truthy. cbv iota. by rewrite Hid. }
  split; [exact Hfwd|]. split; [|split].
  - intros Hplain. rewrite (model_id_of_plain _ Hplain) in Hid. congruence.
  - intros provider rest -> Hp. rewrite (model_id_of_slash _ _ Hp) in Hid. congruence.
  - intros os_environ agent_dir instruction Hextra.
    destruct (create_run_agent_commands_steps os_environ agent_dir self instruction)
      as (overlay & Hov & ->).
    rewrite Hfwd in Hov. injection Hov as <-.
    do 3 eexists. split; [reflexivity|]. split; [reflexivity|].
    unfold update. rewrite lookup_union_r by done. apply lookup_insert_eq.
Qed.

Lemma model_forwarding_witness :
  (∀ env0, forward_model (sample_agent (Some "anthropic/claude-x") []) env0
           = inr (<["DILIGENT_MODEL" := "claude-x"]> env0))
  ∧ (∀ env0, forward_model (sample_agent (Some "claude-x") []) env0
             = inr (<["DILIGENT_MODEL" := "claude-x"]> env0)).
Proof.
  split.
  - destruct (model_forwarding (sample_agent (Some "anthropic/claude-x") [])
                "anthropic/claude-x") as (id & Hfwd & _ & Hslash & _);
      [reflexivity | discriminate |].
    assert (id = "claude-x") as -> by (by apply (Hslash "anthropic")).
    exact Hfwd.
  - destruct (model_forwarding (sample_agent (Some "claude-x") []) "claude-x")
      as (id & Hfwd & Hplain & _); [reflexivity | discriminate |].
    assert (id = "claude-x") as -> by (by apply Hplain).
    exact Hfwd.
Defined.

(** Only the first ["/"] counts. *)
Example model_id_two_slashes : model_id_of "openrouter/anthropic/claude-x" = Some "anthropic/claude-x".
Proof. reflexivity. Qed.

(** The overlay before the model and the extra environment: the API keys
    the ambient environment has. *)
Lemma forward_api_keys_lookup (os_environ : gmap string string) (key : string) :
  forward_api_keys os_environ ∅ !! key =
    if bool_decide (key ∈ api_keys) then os_environ !! key else None.
Proof.
  unfold forward_api_keys, api_keys. simpl.
  destruct (os_environ !! "ANTHROPIC_API_KEY") as [a|] eqn:Ha;
  destruct (os_environ !! "OPENAI_API_KEY") as [o|] eqn:Ho;
  repeat case_bool_decide;
  repeat match goal with
  | H : _ ∈ _ :: _ |- _ => apply elem_of_cons in H as [->|H]
  | H : _ ∈ [] |- _ => by apply elem_of_nil in H
  | H : ¬ (_ ∈ _ :: _) |- _ => apply not_elem_of_cons in H as [? H]
  end;
  by simplify_map_eq.
Qed.

(** C9. Two ambient environments with the same [ANTHROPIC_API_KEY] and the
    same [OPENAI_API_KEY] (each set to the same value, or unset in both)
    give the same commands and the same overlay, whatever else they hold;
    and a variable of the overlay that is neither one of the two keys, nor
    [DILIGENT_MODEL], nor a variable of the extra environment, does not
    exist. *)
Theorem overlay_ignores_other_variables
    (environ1 environ2 : gmap string string) (agent_dir : string)
    (self : DiligentAgent) (instruction : string) :
  environ1 !! "ANTHROPIC_API_KEY" = environ2 !! "ANTHROPIC_API_KEY" →
  environ1 !! "OPENAI_API_KEY" = environ2 !! "OPENAI_API_KEY" →
  create_run_agent_commands environ1 agent_dir self instruction
    = create_run_agent_commands environ2 agent_dir self instruction
  ∧ ∃ run collect overlay,
      create_run_agent_commands environ1 agent_dir self instruction = inr [run; collect]
      ∧ env run = Some overlay
      ∧ env collect = None
      ∧ ∀ key, key ∉ api_keys → key ≠ "DILIGENT_MODEL" →
               _extra_env self !! key = None → overlay !! key = None.
Proof.
  intros Ha Ho.
  assert (forward_api_keys environ1 ∅ = forward_api_keys environ2 ∅) as Hkeys.
  { unfold forward_api_keys, api_keys. simpl. by rewrite Ha, Ho. }
  split.
  - unfold create_run_agent_commands. by rewrite Hkeys.
  - destruct (create_run_agent_commands_steps environ1 agent_dir self instruction)
      as (overlay & Hov & ->).
    do 3 eexists. split; [reflexivity|]. split; [reflexivity|]. split; [reflexivity|].
    intros key Hkey Hmodel Hextra.
    unfold update. rewrite lookup_union_r by done.
    unfold forward_model in Hov.
    assert (forward_api_keys environ1 ∅ !! key = None) as Hnone.
    { rewrite forward_api_keys_lookup. by rewrite bool_decide_eq_false_2. }
    destruct (truthy (model_name self)) as [name|].
    + destruct (model_id_of name); [|done]. injection Hov as <-.
      by rewrite lookup_insert_ne.
    + by injection Hov as <-.
Qed.

Lemma overlay_ignores_other_variables_witness :
  create_run_agent_commands
    (list_to_map [("OPENAI_API_KEY", "sk-1"); ("AWS_SECRET_ACCESS_KEY", "hunter2")])
    "/logs/agent" (sample_agent (Some "openai/gpt-x") []) "ls"
  = create_run_agent_commands
      (list_to_map [("OPENAI_API_KEY", "sk-1"); ("HOME", "/root")])
      "/logs/agent" (sample_agent (Some "openai/gpt-x") []) "ls".
Proof.
  apply (overlay_ignores_other_variables
           (list_to_map [("OPENAI_API_KEY", "sk-1"); ("AWS_SECRET_ACCESS_KEY", "hunter2")])
           (list_to_map [("OPENAI_API_KEY", "sk-1"); ("HOME", "/root")]));
    reflexivity.
Defined.


(** ** Usage aggregation *)

Section Aggregator_facts.

Variable json_loads : string → exception + json.

Lemma for_each_app {A S} (body : S → A → exception + S) (xs ys : list A) : ∀ acc,
  for_each body acc (xs ++ ys) =
  and_then (for_each body acc xs) (λ acc', for_each body acc' ys).
Proof.
  induction xs as [|x xs IH]; intros acc; simpl; [done|].
  destruct (body acc x); simpl; [done | apply IH].
Qed.

(** A blank line and a line that is not JSON leave the totals alone. *)
Lemma process_line_blank (t : Totals) (line : string) :
  Str.strip line = EmptyString → process_line json_loads t line = inr t.
Proof. intros H. unfold process_line. by rewrite H. Qed.

Lemma process_line_malformed (t : Totals) (line : string) :
  json_loads (Str.strip line) = inl JSONDecodeError →
  process_line json_loads t line = inr t.
Proof.
  intros H. unfold process_line. rewrite H. by destruct (Str.is_empty _).
Qed.

Lemma same_totals_refl (r : exception + Totals) : same_totals r r.
Proof. by destruct r. Qed.

Lemma same_totals_trans (r1 r2 r3 : exception + Totals) :
  same_totals r1 r2 → same_totals r2 r3 → same_totals r1 r3.
Proof. destruct r1, r2, r3; simpl; congruence || tauto. Qed.

(** *** Integer counts *)

(** A count that is not a [float] adds an integer of its own to an integer
    total, or raises. *)
Lemma add_integer (usage : list (string * json)) (key : string) :
  is_float (assoc key usage) = false →
  ∃ r : exception + Z, ∀ a,
    add (Int a) (default (JInt 0) (assoc key usage)) =
      match r with
      | inl e => inl e
      | inr i => inr (Int (a + i))
      end.
Proof.
  destruct (assoc key usage) as [v|]; simpl; [|by exists (inr 0)].
  destruct v; simpl; try done; intros _.
  - by exists (inl TypeError).
  - by exists (inr (if b then 1 else 0)).
  - by exists (inr n).
  - by exists (inl TypeError).
  - by exists (inl TypeError).
  - by exists (inl TypeError).
Qed.

Local Ltac adds_nothing :=
  exists (inr (0, 0, 0)); intros a b c; by rewrite ?Z.add_0_r.

Local Ltac raises_it := eexists (inl _); intros ? ? ?; simpl; reflexivity.

(** A line without a [float] count adds three integers of its own to
    integer totals, or raises. *)
Lemma line_shifts (line : string) :
  (∀ entry, json_loads (Str.strip line) = inr entry → float_count entry = false) →
  shifts (process_line json_loads) line.
Proof.
  intros Hint. unfold shifts, process_line.
  destruct (Str.is_empty (Str.strip line)); [adds_nothing|].
  destruct (json_loads (Str.strip line)) as [e|entry]; [destruct e; first [adds_nothing | raises_it]|].
  specialize (Hint entry eq_refl).
  destruct entry as [ |?|?|?|?|?|items]; try raises_it.
  simpl in Hint. simpl get. cbn [and_then].
  destruct (differs_from (default JNull (assoc "type" items)) "message"); [adds_nothing|].
  destruct (assoc "message" items) as [msg|]; simpl; [|adds_nothing].
  destruct msg as [ |?|?|?|?|?|message]; try raises_it.
  simpl.
  destruct (differs_from (default JNull (assoc "role" message)) "assistant");
    [adds_nothing|].
  destruct (assoc "usage" message) as [u|]; simpl; [|adds_nothing].
  destruct u as [ |?|?|?|?|?|usage]; try raises_it.
  simpl in Hint. rewrite orb_false_r in Hint.
  apply orb_false_elim in Hint as [H1 Hint].
  apply orb_false_elim in Hint as [H2 Hint].
  apply orb_false_elim in Hint as [H3 H4].
  destruct (add_integer usage "inputTokens" H1) as [r1 Hr1].
  destruct (add_integer usage "outputTokens" H2) as [r2 Hr2].
  destruct (add_integer usage "cacheReadTokens" H3) as [r3 Hr3].
  destruct (add_integer usage "cacheWriteTokens" H4) as [r4 Hr4].
  exists (match r1, r2, r3, r4 with
          | inl e, _, _, _ => inl e
          | inr _, inl e, _, _ => inl e
          | inr _, inr _, inl e, _ => inl e
          | inr _, inr _, inr _, inl e => inl e
          | inr i, inr o, inr k1, inr k2 => inr (i, o, k1 + k2)
          end).
  intros a b c. simpl.
  rewrite Hr1. destruct r1 as [e|i]; [done|]. cbn [and_then].
  rewrite Hr2. destruct r2 as [e|o]; [done|]. cbn [and_then].
  rewrite Hr3. destruct r3 as [e|k1]; [done|]. cbn [and_then].
  rewrite Hr4. destruct r4 as [e|k2]; [done|]. cbn [and_then].
  unfold ints. by rewrite Z.add_assoc.
Qed.

(** A loop of such steps is such a step. *)
Lemma shifts_for_each {A} (body : Totals → A → exception + Totals) (xs : list A) :
  Forall (shifts body) xs → shifts (for_each body) xs.
Proof.
  induction 1 as [|x xs [r1 Hr1] _ [r2 Hr2]]; [adds_nothing|].
  exists (match r1, r2 with
          | inl e, _ => inl e
          | inr _, inl e => inl e
          | inr (i, o, k), inr (i', o', k') => inr (i + i', o + o', k + k')
          end).
  intros a b c. simpl. rewrite Hr1.
  destruct r1 as [e|[[i o] k]]; [done|]. cbn [and_then]. rewrite Hr2.
  destruct r2 as [e|[[i' o'] k']]; [done|]. by rewrite !Z.add_assoc.
Qed.

(** The order of such steps does not change the totals, nor whether one of
    them raises. *)
Lemma shifts_permutation {A} (body : Totals → A → exception + Totals) (xs ys : list A) :
  Forall (shifts body) xs → xs ≡ₚ ys → ∀ a b c,
  same_totals (for_each body (ints a b c) xs) (for_each body (ints a b c) ys).
Proof.
  intros Hxs Hperm.
  induction Hperm as [|x xs ys Hperm IH|x y xs|xs ys zs Hperm1 IH1 Hperm2 IH2];
    intros a b c.
  - apply same_totals_refl.
  - apply Forall_cons in Hxs as [[r Hr] Hxs]. simpl. rewrite Hr.
    destruct r as [e|[[i o] k]]; [done|]. cbn [and_then]. by apply IH.
  - apply Forall_cons in Hxs as [[ry Hy] Hxs]. apply Forall_cons in Hxs as [[rx Hx] _].
    simpl. rewrite Hy, Hx.
    destruct ry as [ey|[[iy oy] ky]], rx as [ex|[[ix ox] kx]]; cbn [and_then];
      rewrite ?Hx, ?Hy; try done.
    replace (a + iy + ix) with (a + ix + iy) by lia.
    replace (b + oy + ox) with (b + ox + oy) by lia.
    replace (c + ky + kx) with (c + kx + ky) by lia.
    apply same_totals_refl.
  - eapply same_totals_trans; [by apply IH1|]. apply IH2.
    by eapply Permutation_Forall.
Qed.

Lemma lines_shift (lines : list string) :
  integer_lines json_loads lines → Forall (shifts (process_line json_loads)) lines.
Proof.
  intros Hint. apply Forall_forall. intros line Hline. apply line_shifts.
  intros entry. by apply Hint.
Qed.

(** A file with integer counts, readable to its end or not. *)
Lemma file_shifts (f : File) :
  integer_lines json_loads (file_lines f) → shifts (process_file json_loads) f.
Proof.
  intros Hint. destruct (shifts_for_each _ _ (lines_shift _ Hint)) as [r Hr].
  unfold shifts, process_file. destruct (file_fails f) as [e|].
  - exists (match r with inl e' => inl e' | inr _ => inl e end).
    intros a b c. rewrite Hr. by destruct r as [e'|[[i o] k]].
  - exists r. intros a b c. rewrite Hr. by destruct r as [e'|[[i o] k]].
Qed.

Lemma files_shift (files : list File) :
  integer_counts json_loads files →
  Forall (shifts (process_file json_loads)) (glob_jsonl files).
Proof.
  intros Hint. apply Forall_forall. intros f [Hname Hf]%list_elem_of_filter.
  apply file_shifts. by apply Hint.
Qed.

(** With integer counts, the loop over the files gives the same totals, or
    raises, in every order of the files. *)
Lemma aggregate_permutation (files1 files2 : list File) :
  integer_counts json_loads files1 → files1 ≡ₚ files2 →
  same_totals (aggregate json_loads files1) (aggregate json_loads files2).
Proof.
  intros Hint Hperm. unfold aggregate.
  apply (shifts_permutation _ _ _ (files_shift _ Hint)).
  unfold glob_jsonl. by rewrite Hperm.
Qed.

(** Replacing a file by one of the same name that does the same to the
    totals changes nothing. *)
Lemma aggregate_replace_file (before after : list File) (f g : File) :
  file_name f = file_name g →
  (∀ t, process_file json_loads t f = process_file json_loads t g) →
  aggregate json_loads (before ++ f :: after) = aggregate json_loads (before ++ g :: after).
Proof.
  intros Hname Hsame. unfold aggregate, glob_jsonl.
  rewrite !filter_app, !filter_cons, Hname, !for_each_app.
  destruct (for_each _ no_usage _) as [e|t]; [done|]. cbn [and_then].
  case_decide; [|done]. simpl. by rewrite Hsame.
Qed.

(** A line that leaves every total alone can be dropped from a file. *)
Lemma process_file_drop_line
    (name : string) (pre post : list string) (line : string) (fails : option exception) :
  (∀ t, process_line json_loads t line = inr t) → ∀ t,
  process_file json_loads t
    {| file_name := name; file_lines := pre ++ line :: post; file_fails := fails |} =
  process_file json_loads t
    {| file_name := name; file_lines := pre ++ post; file_fails := fails |}.
Proof.
  intros Hskip t. unfold process_file. simpl. rewrite !for_each_app.
  destruct (for_each _ t pre) as [e|t']; [done|]. cbn [and_then]. simpl.
  by rewrite Hskip.
Qed.

End Aggregator_facts.

(** A directory without [.jsonl] files adds up to nothing. *)
Lemma aggregate_no_logs (json_loads : string → exception + json) (files : list File) :
  glob_jsonl files = [] → aggregate json_loads files = inr no_usage.
Proof. intros H. unfold aggregate. by rewrite H. Qed.

(** C1, as the specification states it, fails: with no sessions directory
    the method returns before it writes anything, so a fresh context keeps
    its unset input total instead of getting 0. *)
Lemma missing_directory_is_not_zero :
  ¬ (∀ (json_loads : string → exception + json) (read_dir : Path → option (list File))
       (self : DiligentAgent) (context : AgentContext),
       read_dir (sessions_dir self) = None ∨ read_dir (sessions_dir self) = Some [] →
       let after := (populate_context_post_run json_loads read_dir self context).1 in
       n_input_tokens after = Some (Int 0)
       ∧ n_output_tokens after = Some (Int 0)
       ∧ n_cache_tokens after = None).
Proof.
  intros H.
  destruct (H SampleJson.loads no_dirs (sample_agent None []) fresh_context)
    as [Hin _]; [by left|].
  discriminate Hin.
Qed.

(** C1, amended. With no sessions directory [populate_context_post_run]
    raises nothing and leaves the context as it was; with a sessions
    directory that holds no [.jsonl] file (an empty one in particular) it
    sets the input and output totals to 0 and the cache total to [None]. *)
Theorem no_logs_no_usage
    (json_loads : string → exception + json) (read_dir : Path → option (list File))
    (self : DiligentAgent) (context : AgentContext) :
  (read_dir (sessions_dir self) = None →
   populate_context_post_run json_loads read_dir self context = (context, None))
  ∧ (∀ files, read_dir (sessions_dir self) = Some files → glob_jsonl files = [] →
     populate_context_post_run json_loads read_dir self context =
       ({| n_input_tokens := Some (Int 0); n_cache_tokens := None;
           n_output_tokens := Some (Int 0) |},
        None))
  ∧ (read_dir (sessions_dir self) = Some [] →
     populate_context_post_run json_loads read_dir self context =
       ({| n_input_tokens := Some (Int 0); n_cache_tokens := None;
           n_output_tokens := Some (Int 0) |},
        None)).
Proof.
  unfold populate_context_post_run. fold (sessions_dir self).
  assert (∀ files, read_dir (sessions_dir self) = Some files → glob_jsonl files = [] →
     match read_dir (sessions_dir self) with
     | Some files =>
         match aggregate json_loads files with
         | inl e => (context, Some e)
         | inr t => (report t, None)
         end
     | None => (context, None)
     end =
     ({| n_input_tokens := Some (Int 0); n_cache_tokens := None;
         n_output_tokens := Some (Int 0) |},
      None)) as Hempty.
  { intros files -> Hglob. by rewrite aggregate_no_logs. }
  split; [by intros ->|]. split; [exact Hempty|].
  intros H. by apply (Hempty []).
Qed.

Lemma no_logs_no_usage_witness :
  let self := sample_agent None [] in
  let used := {| n_input_tokens := Some (Int 5); n_cache_tokens := Some (Int 2);
                 n_output_tokens := Some (Int 3) |} in
  let zero := {| n_input_tokens := Some (Int 0); n_cache_tokens := None;
                 n_output_tokens := Some (Int 0) |} in
  populate_context_post_run SampleJson.loads no_dirs self used = (used, None)
  ∧ populate_context_post_run SampleJson.loads
      (only_dir (sessions_dir self) [readable "notes.txt" [assistant_line_1]]) self used
    = (zero, None)
  ∧ populate_context_post_run SampleJson.loads (only_dir (sessions_dir self) []) self used
    = (zero, None).
Proof.
  intros self used zero. split; [|split].
  - by apply (no_logs_no_usage SampleJson.loads no_dirs self used).
  - destruct (no_logs_no_usage SampleJson.loads
                (only_dir (sessions_dir self) [readable "notes.txt" [assistant_line_1]])
                self used) as (_ & Hno_logs & _).
    eapply Hno_logs; vm_compute; reflexivity.
  - by apply (no_logs_no_usage SampleJson.loads (only_dir (sessions_dir self) []) self used).
Defined.

Lemma not_empty_string (s : string) : s ≠ EmptyString → Str.is_empty s = false.
Proof. by destruct s. Qed.

(** What a message line adds when its role is not [assistant]: nothing. *)
Lemma process_line_other_role
    (json_loads : string → exception + json) (t : Totals) (line role : string)
    (usage : list (string * json)) :
  json_loads (Str.strip line) = inr (message_entry role usage) →
  role ≠ "assistant" →
  process_line json_loads t line = inr t.
Proof.
  intros Hload Hrole. unfold process_line. rewrite Hload.
  destruct (Str.is_empty (Str.strip line)); [done|]. simpl.
  destruct (String.eqb_spec role "assistant"); [done|]. reflexivity.
Qed.

(** C6. A sessions directory with one [.jsonl] file of three lines, two
    assistant messages with usage [{inputTokens: 10, outputTokens: 5}] and
    [{inputTokens: 3, outputTokens: 2, cacheReadTokens: 1}] and a message of
    another role with any usage, is reported as input 13, output 7 and
    cache 1.  And whenever the aggregation succeeds, the cache total it
    reports is the accumulated one when that is greater than zero, and
    [None] otherwise. *)
Theorem usage_of_assistant_messages
    (json_loads : string → exception + json) (read_dir : Path → option (list File))
    (self : DiligentAgent) (context : AgentContext) :
  (∀ (name l1 l2 l3 role : string) (usage3 : list (string * json)),
     Str.endswith ".jsonl" name = true →
     read_dir (sessions_dir self)
       = Some [ {| file_name := name; file_lines := [l1; l2; l3]; file_fails := None |} ] →
     Str.strip l1 ≠ EmptyString →
     json_loads (Str.strip l1)
       = inr (message_entry "assistant" [("inputTokens", JInt 10); ("outputTokens", JInt 5)]) →
     Str.strip l2 ≠ EmptyString →
     json_loads (Str.strip l2)
       = inr (message_entry "assistant"
                [("inputTokens", JInt 3); ("outputTokens", JInt 2); ("cacheReadTokens", JInt 1)]) →
     json_loads (Str.strip l3) = inr (message_entry role usage3) →
     role ≠ "assistant" →
     populate_context_post_run json_loads read_dir self context =
       ({| n_input_tokens := Some (Int 13); n_cache_tokens := Some (Int 1);
           n_output_tokens := Some (Int 7) |},
        None))
  ∧ (∀ (files : list File) (t : Totals),
       read_dir (sessions_dir self) = Some files →
       aggregate json_loads files = inr t →
       let after := (populate_context_post_run json_loads read_dir self context).1 in
       n_input_tokens after = Some (total_input t)
       ∧ n_output_tokens after = Some (total_output t)
       ∧ (∀ c, total_cache t = Int c →
            (0 < c → n_cache_tokens after = Some (Int c))
            ∧ (c ≤ 0 → n_cache_tokens after = None))
       ∧ (∀ x, total_cache t = Float x →
            (PrimFloat.ltb PrimFloat.zero x = true → n_cache_tokens after = Some (Float x))
            ∧ (PrimFloat.ltb PrimFloat.zero x = false → n_cache_tokens after = None))).
Proof.
  split.
  - intros name l1 l2 l3 role usage3 Hname Hdir Hl1 Hload1 Hl2 Hload2 Hload3 Hrole.
    unfold populate_context_post_run. fold (sessions_dir self). rewrite Hdir.
    unfold aggregate, glob_jsonl.
    rewrite filter_cons_True, filter_nil by (simpl; by rewrite Hname).
    simpl. unfold process_file. simpl.
    unfold process_line at 1.
    rewrite (not_empty_string _ Hl1), Hload1. simpl.
    unfold process_line at 1.
    rewrite (not_empty_string _ Hl2), Hload2. simpl.
    by rewrite (process_line_other_role json_loads _ l3 role usage3).
  - intros files t Hdir Hagg after. subst after.
    unfold populate_context_post_run. fold (sessions_dir self).
    rewrite Hdir, Hagg. simpl. split; [done|]. split; [done|].
    split; [intros c Hc | intros x Hx]; rewrite ?Hc, ?Hx; simpl; split; intros Hpos.
    + by rewrite (proj2 (Z.ltb_lt _ _) Hpos).
    + by rewrite (proj2 (Z.ltb_ge _ _) Hpos).
    + by rewrite Hpos.
    + by rewrite Hpos.
Qed.

Lemma usage_of_assistant_messages_witness :
  let self := sample_agent None [] in
  populate_context_post_run SampleJson.loads
    (only_dir (sessions_dir self)
       [ {| file_name := "run-1.jsonl";
            file_lines := [assistant_line_1; assistant_line_2; user_line];
            file_fails := None |} ])
    self fresh_context
  = ({| n_input_tokens := Some (Int 13); n_cache_tokens := Some (Int 1);
        n_output_tokens := Some (Int 7) |},
     None).
Proof.
  intros self.
  destruct (usage_of_assistant_messages SampleJson.loads
              (only_dir (sessions_dir self)
                 [ {| file_name := "run-1.jsonl";
                      file_lines := [assistant_line_1; assistant_line_2; user_line];
                      file_fails := None |} ])
              self fresh_context) as [Hthree _].
  apply (Hthree "run-1.jsonl" assistant_line_1 assistant_line_2 user_line "user"
           [("inputTokens", JInt 100); ("outputTokens", JInt 50); ("cacheWriteTokens", JInt 7)]);
    first [discriminate | vm_compute; reflexivity | vm_compute; discriminate].
Defined.

(** C7. A line that [json.loads] rejects with [JSONDecodeError], anywhere
    in a file of the sessions directory (between two valid lines in
    particular), changes nothing: the method leaves the same context, and
    raises or not, as on the directory without that line. *)
Theorem malformed_line_is_skipped
    (json_loads : string → exception + json) (read_dir1 read_dir2 : Path → option (list File))
    (self : DiligentAgent) (context : AgentContext)
    (before after : list File) (name : string) (pre post : list string) (bad : string)
    (fails : option exception) :
  json_loads (Str.strip bad) = inl JSONDecodeError →
  read_dir1 (sessions_dir self)
    = Some (before ++ {| file_name := name; file_lines := pre ++ bad :: post;
                         file_fails := fails |} :: after) →
  read_dir2 (sessions_dir self)
    = Some (before ++ {| file_name := name; file_lines := pre ++ post;
                         file_fails := fails |} :: after) →
  aggregate json_loads
    (before ++ {| file_name := name; file_lines := pre ++ bad :: post;
                  file_fails := fails |} :: after)
  = aggregate json_loads
      (before ++ {| file_name := name; file_lines := pre ++ post;
                    file_fails := fails |} :: after)
  ∧ populate_context_post_run json_loads read_dir1 self context
    = populate_context_post_run json_loads read_dir2 self context.
Proof.
  intros Hbad Hdir1 Hdir2.
  assert (aggregate json_loads
            (before ++ {| file_name := name; file_lines := pre ++ bad :: post;
                          file_fails := fails |} :: after)
          = aggregate json_loads
              (before ++ {| file_name := name; file_lines := pre ++ post;
                            file_fails := fails |} :: after))
    as Hagg.
  { apply aggregate_replace_file; [done|].
    apply process_file_drop_line. intros t. by apply process_line_malformed. }
  split; [exact Hagg|].
  unfold populate_context_post_run. fold (sessions_dir self).
  by rewrite Hdir1, Hdir2, Hagg.
Qed.

Lemma malformed_line_is_skipped_witness :
  let self := sample_agent None [] in
  populate_context_post_run SampleJson.loads
    (only_dir (sessions_dir self)
       [ {| file_name := "run-1.jsonl";
            file_lines := [assistant_line_1; malformed_line; assistant_line_2];
            file_fails := None |} ])
    self fresh_context
  = populate_context_post_run SampleJson.loads
      (only_dir (sessions_dir self)
         [ {| file_name := "run-1.jsonl";
              file_lines := [assistant_line_1; assistant_line_2];
              file_fails := None |} ])
      self fresh_context.
Proof.
  intros self.
  apply (malformed_line_is_skipped SampleJson.loads _ _ self fresh_context
           [] [] "run-1.jsonl" [assistant_line_1] [assistant_line_2] malformed_line None);
    vm_compute; reflexivity.
Defined.

Example malformed_line_totals :
  aggregate SampleJson.loads
    [readable "run-1.jsonl" [assistant_line_1; malformed_line; assistant_line_2]]
  = inr (ints 13 7 1).
Proof. vm_compute. reflexivity. Qed.

(** The three files of the counterexample: one assistant message each,
    with input counts 0.1, 0.2 and 0.3. *)
Example float_totals_by_order :
  let a := readable "a.jsonl" [input_line "0.1"] in
  let b := readable "b.jsonl" [input_line "0.2"] in
  let c := readable "c.jsonl" [input_line "0.3"] in
  ∃ x y, aggregate SampleJson.loads [a; b; c] = inr {| total_input := Float x;
           total_output := Int 0; total_cache := Int 0 |}
    ∧ aggregate SampleJson.loads [c; b; a] = inr {| total_input := Float y;
           total_output := Int 0; total_cache := Int 0 |}
    ∧ PrimFloat.ltb y x = true.
Proof. intros a b c. do 2 eexists. repeat split; vm_compute; reflexivity. Qed.

(** C8, as the specification states it, fails: token counts that are
    floats are added with rounding, so three files with input counts 0.1,
    0.2 and 0.3 give one input total when listed in this order and another
    when listed in the reverse order. *)
Lemma float_counts_depend_on_order :
  ¬ (∀ (json_loads : string → exception + json) (self : DiligentAgent)
       (context : AgentContext) (read_dir1 read_dir2 : Path → option (list File))
       (files1 files2 : list File),
       read_dir1 (sessions_dir self) = Some files1 →
       read_dir2 (sessions_dir self) = Some files2 →
       files1 ≡ₚ files2 →
       same_totals (aggregate json_loads files1) (aggregate json_loads files2)
       ∧ (populate_context_post_run json_loads read_dir1 self context).1
         = (populate_context_post_run json_loads read_dir2 self context).1).
Proof.
  intros H.
  pose (a := readable "a.jsonl" [input_line "0.1"]).
  pose (b := readable "b.jsonl" [input_line "0.2"]).
  pose (c := readable "c.jsonl" [input_line "0.3"]).
  pose (self := sample_agent None []).
  destruct (H SampleJson.loads self fresh_context
              (only_dir (sessions_dir self) [a; b; c])
              (only_dir (sessions_dir self) [c; b; a]) [a; b; c] [c; b; a])
    as [Hsame _]; [reflexivity | reflexivity | |].
  - apply (Permutation_rev [a; b; c]).
  - vm_compute in Hsame. discriminate Hsame.
Qed.

(** C8, amended. When no message of the assistant in the [.jsonl] files has
    a [float] for a token count, the order in which the directory lists
    its files does not matter: two listings that are permutations of each
    other give the same totals (or both raise), and leave the same
    context.  And for every directory, running the method again on the
    context it left, with the directory unchanged, leaves that context and
    raises what the first run raised. *)
Theorem aggregation_order_and_rerun
    (json_loads : string → exception + json) (self : DiligentAgent) (context : AgentContext) :
  (∀ (read_dir1 read_dir2 : Path → option (list File)) (files1 files2 : list File),
     read_dir1 (sessions_dir self) = Some files1 →
     read_dir2 (sessions_dir self) = Some files2 →
     integer_counts json_loads files1 →
     files1 ≡ₚ files2 →
     same_totals (aggregate json_loads files1) (aggregate json_loads files2)
     ∧ (populate_context_post_run json_loads read_dir1 self context).1
       = (populate_context_post_run json_loads read_dir2 self context).1
     ∧ ((populate_context_post_run json_loads read_dir1 self context).2 = None
        ↔ (populate_context_post_run json_loads read_dir2 self context).2 = None))
  ∧ (∀ read_dir : Path → option (list File),
       populate_context_post_run json_loads read_dir self
         (populate_context_post_run json_loads read_dir self context).1
       = populate_context_post_run json_loads read_dir self context).
Proof.
  split.
  - intros read_dir1 read_dir2 files1 files2 Hdir1 Hdir2 Hint Hperm.
    pose proof (aggregate_permutation json_loads files1 files2 Hint Hperm) as Hsame.
    split; [exact Hsame|].
    unfold populate_context_post_run. fold (sessions_dir self). rewrite Hdir1, Hdir2.
    destruct (aggregate json_loads files1) as [e1|t1],
             (aggregate json_loads files2) as [e2|t2]; simpl in *;
      try done; by subst.
  - intros read_dir. unfold populate_context_post_run. fold (sessions_dir self).
    destruct (read_dir (sessions_dir self)) as [files|]; [|done].
    by destruct (aggregate json_loads files).
Qed.

(** The sample lines have integer counts. *)
Lemma sample_lines_integer (files : list File) :
  Forall (λ f, Forall (λ line,
            match SampleJson.loads (Str.strip line) with
            | inr entry => float_count entry = false
            | inl _ => True
            end) (file_lines f)) files →
  integer_counts SampleJson.loads files.
Proof.
  intros Hfiles f Hf _ line entry Hline Hload.
  rewrite Forall_forall in Hfiles. specialize (Hfiles f Hf).
  rewrite Forall_forall in Hfiles. specialize (Hfiles line Hline).
  by rewrite Hload in Hfiles.
Qed.

Lemma aggregation_order_and_rerun_witness :
  let self := sample_agent None [] in
  let f1 := readable "a.jsonl" [assistant_line_1; user_line] in
  let f2 := readable "b.jsonl" [assistant_line_2] in
  same_totals (aggregate SampleJson.loads [f1; f2]) (aggregate SampleJson.loads [f2; f1])
  ∧ (populate_context_post_run SampleJson.loads (only_dir (sessions_dir self) [f1; f2])
       self fresh_context).1
    = (populate_context_post_run SampleJson.loads (only_dir (sessions_dir self) [f2; f1])
         self fresh_context).1.
Proof.
  intros self f1 f2.
  destruct (aggregation_order_and_rerun SampleJson.loads self fresh_context) as [Horder _].
  destruct (Horder (only_dir (sessions_dir self) [f1; f2])
              (only_dir (sessions_dir self) [f2; f1]) [f1; f2] [f2; f1])
    as (Hsame & Hctx & _); [reflexivity | reflexivity | | apply Permutation_swap |].
  - apply sample_lines_integer. repeat constructor; vm_compute; reflexivity.
  - split; [exact Hsame | exact Hctx].
Defined.

(** * Further properties of the adapter *)

(** ** [_resolve_binary_path] *)

(** An override that exists is returned at once: the only probe is the test
    of that path, and git is not run, whatever lies under the repository. *)
Theorem existing_override_is_returned (host : Host) (env_path : string) :
  environ host !! override_var = Some env_path →
  env_path ≠ EmptyString →
  path_exists host (PathOf env_path) = true →
  _resolve_binary_path host = ([Ev_exists (PathOf env_path)], inr (PathOf env_path)).
Proof.
  intros Henv Hne Hfound. unfold _resolve_binary_path. fold override_var. rewrite Henv.
  destruct env_path as [|c r]; [done|]. simpl. by rewrite Hfound.
Qed.

Lemma existing_override_is_returned_witness :
  _resolve_binary_path
    (sample_host [("DILIGENT_BINARY_PATH", "/opt/diligent")]
       [PathOf "/opt/diligent"; fallback_candidate repo_line] (inr repo_line))
  = ([Ev_exists (PathOf "/opt/diligent")], inr (PathOf "/opt/diligent")).
Proof.
  apply existing_override_is_returned; [reflexivity | discriminate | reflexivity].
Defined.

(** Without an override, a build under the repository root is returned,
    after git and one test of the candidate. *)
Theorem existing_fallback_is_returned (host : Host) (out : string) :
  truthy (environ host !! override_var) = None →
  check_output host git_toplevel = inr out →
  path_exists host (fallback_candidate out) = true →
  _resolve_binary_path host =
    ([Ev_subprocess git_toplevel; Ev_exists (fallback_candidate out)],
     inr (fallback_candidate out)).
Proof.
  intros Hunset Hgit Hfound. rewrite (resolve_without_override host Hunset).
  unfold auto_detect, run, exists_, bind, try_except. by rewrite Hgit, Hfound.
Qed.

Lemma existing_fallback_is_returned_witness :
  _resolve_binary_path (sample_host [] [fallback_candidate repo_line] (inr repo_line))
  = ([Ev_subprocess git_toplevel; Ev_exists (fallback_candidate repo_line)],
     inr (fallback_candidate repo_line)).
Proof.
  apply existing_fallback_is_returned; reflexivity.
Defined.

(** An exception of git that the method does not catch (a
    [PermissionError], say) leaves the method as it is, and the remedies
    message is not raised in its place. *)
Theorem uncaught_git_error_propagates (host : Host) (e : exception) :
  truthy (environ host !! override_var) = None →
  check_output host git_toplevel = inl e →
  caught_by_resolver e = false →
  _resolve_binary_path host = ([Ev_subprocess git_toplevel], inl e).
Proof.
  intros Hunset Hgit Hcaught. rewrite (resolve_without_override host Hunset).
  unfold auto_detect, run, exists_, bind, try_except. by rewrite Hgit, Hcaught.
Qed.

Lemma uncaught_git_error_propagates_witness :
  _resolve_binary_path (sample_host [] [] (inl (OtherError "PermissionError")))
  = ([Ev_subprocess git_toplevel], inl (OtherError "PermissionError")).
Proof.
  apply uncaught_git_error_propagates; reflexivity.
Defined.

(** What the search under the repository returns exists. *)
Lemma auto_detect_exists (host : Host) (candidate : Path) :
  (auto_detect host).2 = inr (Some candidate) →
  path_exists host candidate = true ∧ Ev_exists candidate ∈ (auto_detect host).1.
Proof.
  unfold auto_detect, run, exists_, bind, try_except.
  destruct (check_output host git_toplevel) as [e|out]; simpl.
  - destruct (caught_by_resolver e); simpl; congruence.
  - destruct (path_exists host (fallback_candidate out)) eqn:Hfound; simpl; [|congruence].
    intros [= <-]. split; [done|]. set_solver.
Qed.

Lemma resolve_returns_probed (host : Host) (p : Path) :
  (_resolve_binary_path host).2 = inr p →
  path_exists host p = true ∧ Ev_exists p ∈ (_resolve_binary_path host).1.
Proof.
  unfold _resolve_binary_path.
  destruct (truthy (environ host !! "DILIGENT_BINARY_PATH")) as [env_path|].
  - unfold exists_, bind. simpl.
    destruct (path_exists host (PathOf env_path)) eqn:Hfound; simpl; [|congruence].
    intros [= <-]. split; [done|]. set_solver.
  - pose proof (auto_detect_exists host) as Hauto.
    destruct (auto_detect host) as [tr [e|[c|]]]; simpl in *; [congruence| |congruence].
    intros [= <-]. rewrite app_nil_r. by apply Hauto.
Qed.

(** A path the method returns exists on the host, and the method has
    tested it. *)
Theorem resolved_path_exists (host : Host) (p : Path) :
  (_resolve_binary_path host).2 = inr p →
  path_exists host p = true ∧ Ev_exists p ∈ (_resolve_binary_path host).1.
Proof. apply resolve_returns_probed. Qed.

Lemma resolved_path_exists_witness :
  let host := sample_host [] [fallback_candidate repo_line] (inr repo_line) in
  path_exists host (fallback_candidate repo_line) = true
  ∧ Ev_exists (fallback_candidate repo_line) ∈ (_resolve_binary_path host).1.
Proof.
  intros host. apply (resolved_path_exists host). reflexivity.
Defined.

(** The two [FileNotFoundError]s of the method are the only ones it raises:
    one for a configured override that does not exist, one, with the
    remedies message, when nothing is configured; the [FileNotFoundError]
    of a missing git executable never reaches the caller. *)
Theorem resolver_file_not_found (host : Host) (msg : string) :
  (_resolve_binary_path host).2 = inl (FileNotFoundError msg) →
  (∃ env_path, environ host !! override_var = Some env_path
     ∧ env_path ≠ EmptyString
     ∧ path_exists host (PathOf env_path) = false
     ∧ FileNotFoundError msg = override_missing env_path)
  ∨ (truthy (environ host !! override_var) = None ∧ msg = not_found_message).
Proof.
  destruct (truthy (environ host !! override_var)) as [env_path|] eqn:Htruthy.
  - intros H. left. exists env_path.
    unfold truthy in Htruthy.
    destruct (environ host !! override_var) as [v|] eqn:Henv; [|done].
    destruct v as [|c r]; [done|]. simpl in Htruthy. injection Htruthy as <-.
    unfold _resolve_binary_path in H. fold override_var in H. rewrite Henv in H.
    simpl in H. destruct (path_exists host (PathOf (String c r))); simpl in H; [done|].
    by injection H as <-.
  - intros H. right. split; [done|].
    rewrite (resolve_without_override host Htruthy) in H.
    pose proof (auto_detect_not_found host msg) as Hnf.
    destruct (auto_detect host) as [tr [e|[c|]]]; simpl in *; congruence.
Qed.

Lemma resolver_file_not_found_witness :
  (∃ env_path, environ (sample_host [] [] (inl (FileNotFoundError "git"))) !! override_var
               = Some env_path
     ∧ env_path ≠ EmptyString
     ∧ path_exists (sample_host [] [] (inl (FileNotFoundError "git"))) (PathOf env_path) = false
     ∧ FileNotFoundError not_found_message = override_missing env_path)
  ∨ (truthy (environ (sample_host [] [] (inl (FileNotFoundError "git"))) !! override_var) = None
     ∧ not_found_message = not_found_message).
Proof.
  apply (resolver_file_not_found (sample_host [] [] (inl (FileNotFoundError "git")))).
  reflexivity.
Defined.

(** ** White space around the output of git and around log lines *)

Lemma lstrip_all_space (s : string) : all_space s = true → Str.lstrip s = EmptyString.
Proof.
  induction s as [|c s IH]; simpl; [done|].
  intros [Hc Hs]%andb_prop. rewrite Hc. by apply IH.
Qed.

Lemma rstrip_all_space (s : string) : all_space s = true → Str.rstrip s = EmptyString.
Proof.
  induction s as [|c s IH]; simpl; [done|].
  intros [Hc Hs]%andb_prop. by rewrite (IH Hs), Hc.
Qed.

Lemma lstrip_leading (pre s : string) :
  all_space pre = true → Str.lstrip (pre +:+ s) = Str.lstrip s.
Proof.
  induction pre as [|c pre IH]; simpl; [done|].
  intros [Hc Hs]%andb_prop. rewrite Hc. by apply IH.
Qed.

Lemma rstrip_trailing (s post : string) :
  all_space post = true → Str.rstrip (s +:+ post) = Str.rstrip s.
Proof.
  intros Hpost. induction s as [|c s IH]; simpl.
  - by apply rstrip_all_space.
  - by rewrite IH.
Qed.

(** [strip] does not see white space added on either side. *)
Lemma strip_surrounded (pre s post : string) :
  all_space pre = true → all_space post = true →
  Str.strip (pre +:+ s +:+ post) = Str.strip s.
Proof.
  intros Hpre Hpost. unfold Str.strip. rewrite lstrip_leading by done.
  induction s as [|c s IH]; simpl.
  - by rewrite (lstrip_all_space post Hpost).
  - destruct (Str.isspace c); [exact IH|].
    change (String c (s +:+ post)) with (String c s +:+ post).
    by apply rstrip_trailing.
Qed.

(** The candidate does not depend on the white space git prints around
    the repository root, the final newline in particular. *)
Theorem fallback_candidate_strips (pre root post : string) :
  all_space pre = true → all_space post = true →
  fallback_candidate (pre +:+ root +:+ post) = fallback_candidate root
  ∧ (Str.strip root = root →
     fallback_candidate (pre +:+ root +:+ post)
     = PathDiv (PathDiv (PathOf root) "dist") "diligent-linux-x64").
Proof.
  intros Hpre Hpost. unfold fallback_candidate. rewrite strip_surrounded by done.
  split; [done|]. by intros ->.
Qed.

Lemma fallback_candidate_strips_witness :
  fallback_candidate (" " +:+ "/srv/my repo" +:+ String "013" (String "010" EmptyString))
  = PathDiv (PathDiv (PathOf "/srv/my repo") "dist") "diligent-linux-x64".
Proof.
  apply (fallback_candidate_strips " " "/srv/my repo" (String "013" (String "010" EmptyString)));
    reflexivity.
Defined.

(** ** [setup] *)

(** When the binary cannot be resolved, [setup] raises what the resolver
    raised and neither copies anything nor runs the [setup] of the base
    class. *)
Theorem setup_stops_without_binary
    (host : Host) (staging : Staging) (self : DiligentAgent) (e : exception) :
  (_resolve_binary_path host).2 = inl e →
  (setup host staging self).2 = Some e
  ∧ (Step_super_setup ∉ (setup host staging self).1)
  ∧ ∀ src dst, Step_copy2 src dst ∉ (setup host staging self).1.
Proof.
  unfold setup. destruct (_resolve_binary_path host) as [probes [e'|p]]; simpl; [|done].
  intros [= ->]. split; [done|].
  split; [|intros src dst]; intros (x & Hx & _)%list_elem_of_fmap; discriminate Hx.
Qed.

Lemma setup_stops_without_binary_witness :
  let host := sample_host [("DILIGENT_BINARY_PATH", "/opt/diligent")] [] (inr repo_line) in
  let self := sample_agent None [] in
  (setup host staging_ok self).2 = Some (override_missing "/opt/diligent")
  ∧ (Step_super_setup ∉ (setup host staging_ok self).1)
  ∧ ∀ src dst, Step_copy2 src dst ∉ (setup host staging_ok self).1.
Proof.
  intros host self. apply (setup_stops_without_binary host staging_ok self). reflexivity.
Defined.

(** Every copy [setup] makes is from a path that exists on the host to
    [diligent-linux-x64] in the logs directory of the agent. *)
Theorem setup_copies_existing_binary
    (host : Host) (staging : Staging) (self : DiligentAgent) (src dst : Path) :
  Step_copy2 src dst ∈ (setup host staging self).1 →
  path_exists host src = true
  ∧ (_resolve_binary_path host).2 = inr src
  ∧ dst = PathDiv (logs_dir self) "diligent-linux-x64".
Proof.
  unfold setup. pose proof (resolve_returns_probed host) as Hexists.
  destruct (_resolve_binary_path host) as [probes [e|p]]; simpl in *.
  - intros (x & Hx & _)%list_elem_of_fmap. discriminate Hx.
  - assert (∀ l, Step_copy2 src dst ∈ (Step_probe <$> probes) ++ Step_copy2 p
               (PathDiv (logs_dir self) "diligent-linux-x64") :: l →
               Step_copy2 src dst ∈ l ∨
               (src = p ∧ dst = PathDiv (logs_dir self) "diligent-linux-x64")) as Hin.
    { intros l [(x & Hx & _)%list_elem_of_fmap | Hcons%elem_of_cons]%elem_of_app;
        [discriminate Hx|].
      destruct Hcons as [[= -> ->] | ?]; auto. }
    destruct (copy2 staging p _); simpl; intros [Hl | [-> ->]]%Hin.
    + by apply elem_of_nil in Hl.
    + split; [by apply Hexists | done].
    + apply list_elem_of_singleton in Hl. discriminate Hl.
    + split; [by apply Hexists | done].
Qed.

Lemma setup_copies_existing_binary_witness :
  let host := sample_host [] [fallback_candidate repo_line] (inr repo_line) in
  let self := sample_agent None [] in
  path_exists host (fallback_candidate repo_line) = true
  ∧ (_resolve_binary_path host).2 = inr (fallback_candidate repo_line)
  ∧ PathDiv (PathOf "/trial/agent") "diligent-linux-x64"
    = PathDiv (logs_dir self) "diligent-linux-x64".
Proof.
  intros host self.
  apply (setup_copies_existing_binary host staging_ok self).
  vm_compute. set_solver.
Defined.

(** The [setup] of the base class runs only after a copy that succeeded,
    and then [setup] raises what the base class raises, if anything. *)
Theorem setup_runs_base_class_last
    (host : Host) (staging : Staging) (self : DiligentAgent) :
  Step_super_setup ∈ (setup host staging self).1 →
  ∃ probes binary_path,
    _resolve_binary_path host = (probes, inr binary_path)
    ∧ copy2 staging binary_path (PathDiv (logs_dir self) "diligent-linux-x64") = None
    ∧ setup host staging self =
        ((Step_probe <$> probes) ++
           [Step_copy2 binary_path (PathDiv (logs_dir self) "diligent-linux-x64");
            Step_super_setup],
         super_setup staging).
Proof.
  unfold setup. destruct (_resolve_binary_path host) as [probes [e|p]]; simpl.
  - intros (x & Hx & _)%list_elem_of_fmap. discriminate Hx.
  - destruct (copy2 staging p _) eqn:Hcopy; simpl.
    + intros [(x & Hx & _)%list_elem_of_fmap | Hl%list_elem_of_singleton]%elem_of_app;
        [discriminate Hx | discriminate Hl].
    + intros _. by exists probes, p.
Qed.

Lemma setup_runs_base_class_last_witness :
  let host := sample_host [] [fallback_candidate repo_line] (inr repo_line) in
  ∃ probes binary_path,
    _resolve_binary_path host = (probes, inr binary_path)
    ∧ copy2 staging_ok binary_path (PathDiv (logs_dir (sample_agent None [])) "diligent-linux-x64")
      = None
    ∧ setup host staging_ok (sample_agent None []) =
        ((Step_probe <$> probes) ++
           [Step_copy2 binary_path
              (PathDiv (logs_dir (sample_agent None [])) "diligent-linux-x64");
            Step_super_setup],
         super_setup staging_ok).
Proof.
  intros host. apply (setup_runs_base_class_last host staging_ok (sample_agent None [])).
  vm_compute. set_solver.
Defined.

(** ** [create_run_agent_commands] *)

Lemma model_var_not_api_key : "DILIGENT_MODEL" ∉ api_keys.
Proof.
  unfold api_keys. intros H.
  repeat (apply elem_of_cons in H as [H|H]; [discriminate H|]).
  by apply elem_of_nil in H.
Qed.

(** The overlay of the run step, variable by variable: the extra
    environment first, then the model, then the two API keys. *)
Lemma overlay_lookup
    (os_environ : gmap string string) (self : DiligentAgent) (overlay : gmap string string)
    (key : string) :
  forward_model self (forward_api_keys os_environ ∅) = inr overlay →
  update overlay (_extra_env self) !! key =
    match _extra_env self !! key with
    | Some v => Some v
    | None =>
        if bool_decide (key = "DILIGENT_MODEL") then
          name ← truthy (model_name self); model_id_of name
        else if bool_decide (key ∈ api_keys) then os_environ !! key
        else None
    end.
Proof.
  intros Hov. unfold update. rewrite lookup_union.
  destruct (_extra_env self !! key) as [v|]; [by destruct (overlay !! key)|].
  rewrite (left_id None _).
  unfold forward_model in Hov.
  destruct (truthy (model_name self)) as [name|]; simpl.
  - destruct (model_id_of name) as [model_id|]; [|done]. injection Hov as <-.
    case_bool_decide as Hkey.
    + subst key. by rewrite lookup_insert_eq.
    + rewrite lookup_insert_ne by done. apply forward_api_keys_lookup.
  - injection Hov as <-. rewrite forward_api_keys_lookup.
    destruct (decide (key = "DILIGENT_MODEL")) as [->|Hkey].
    + rewrite (bool_decide_eq_false_2 ("DILIGENT_MODEL" ∈ api_keys))
        by apply model_var_not_api_key.
      by rewrite bool_decide_eq_true_2.
    + by rewrite (bool_decide_eq_false_2 (key = "DILIGENT_MODEL")).
Qed.

(** A variable of the extra environment of the constructor is in the
    overlay with the caller's value, whether or not the adapter forwards a
    variable of that name itself. *)
Theorem extra_env_wins
    (os_environ : gmap string string) (agent_dir : string) (self : DiligentAgent)
    (instruction key v : string) :
  _extra_env self !! key = Some v →
  ∃ run collect overlay,
    create_run_agent_commands os_environ agent_dir self instruction = inr [run; collect]
    ∧ env run = Some overlay
    ∧ overlay !! key = Some v.
Proof.
  intros Hextra.
  destruct (create_run_agent_commands_steps os_environ agent_dir self instruction)
    as (overlay & Hov & ->).
  do 3 eexists. split; [reflexivity|]. split; [reflexivity|].
  by rewrite (overlay_lookup os_environ self overlay key Hov), Hextra.
Qed.

Lemma extra_env_wins_witness :
  ∃ run collect overlay,
    create_run_agent_commands
      (list_to_map [("OPENAI_API_KEY", "sk-ambient")]) "/logs/agent"
      (sample_agent (Some "openai/gpt-x") [("OPENAI_API_KEY", "sk-caller")]) "ls"
    = inr [run; collect]
    ∧ env run = Some overlay
    ∧ overlay !! "OPENAI_API_KEY" = Some "sk-caller".
Proof.
  apply extra_env_wins. reflexivity.
Defined.

(** Each of the two API keys that the extra environment does not set is in
    the overlay exactly when the ambient environment has it, with the
    ambient value. *)
Theorem api_key_is_forwarded
    (os_environ : gmap string string) (agent_dir : string) (self : DiligentAgent)
    (instruction key : string) :
  key ∈ api_keys →
  _extra_env self !! key = None →
  ∃ run collect overlay,
    create_run_agent_commands os_environ agent_dir self instruction = inr [run; collect]
    ∧ env run = Some overlay
    ∧ overlay !! key = os_environ !! key.
Proof.
  intros Hkey Hextra.
  destruct (create_run_agent_commands_steps os_environ agent_dir self instruction)
    as (overlay & Hov & ->).
  do 3 eexists. split; [reflexivity|]. split; [reflexivity|].
  rewrite (overlay_lookup os_environ self overlay key Hov), Hextra.
  rewrite bool_decide_eq_false_2, bool_decide_eq_true_2; [done..|].
  intros ->. by apply model_var_not_api_key.
Qed.

Lemma api_key_is_forwarded_witness :
  ∃ run collect overlay,
    create_run_agent_commands
      (list_to_map [("ANTHROPIC_API_KEY", "sk-ant")]) "/logs/agent"
      (sample_agent None []) "ls"
    = inr [run; collect]
    ∧ env run = Some overlay
    ∧ overlay !! "ANTHROPIC_API_KEY"
      = (list_to_map [("ANTHROPIC_API_KEY", "sk-ant")] : gmap string string)
          !! "ANTHROPIC_API_KEY".
Proof.
  apply api_key_is_forwarded; [|reflexivity].
  unfold api_keys. apply elem_of_cons. by left.
Defined.

(** Without a model, or with the empty string for one, the adapter sets no
    [DILIGENT_MODEL]: the overlay has one only if the extra environment
    does. *)
Theorem no_model_no_variable
    (os_environ : gmap string string) (agent_dir : string) (self : DiligentAgent)
    (instruction : string) :
  model_name self = None ∨ model_name self = Some EmptyString →
  ∃ run collect overlay,
    create_run_agent_commands os_environ agent_dir self instruction = inr [run; collect]
    ∧ env run = Some overlay
    ∧ overlay !! "DILIGENT_MODEL" = _extra_env self !! "DILIGENT_MODEL".
Proof.
  intros Hmodel.
  destruct (create_run_agent_commands_steps os_environ agent_dir self instruction)
    as (overlay & Hov & ->).
  do 3 eexists. split; [reflexivity|]. split; [reflexivity|].
  rewrite (overlay_lookup os_environ self overlay _ Hov).
  destruct (_extra_env self !! "DILIGENT_MODEL"); [done|].
  rewrite bool_decide_eq_true_2 by done.
  by destruct Hmodel as [-> | ->].
Qed.

Lemma no_model_no_variable_witness :
  ∃ run collect overlay,
    create_run_agent_commands ∅ "/logs/agent" (sample_agent (Some "") []) "ls"
    = inr [run; collect]
    ∧ env run = Some overlay
    ∧ overlay !! "DILIGENT_MODEL"
      = _extra_env (sample_agent (Some "") []) !! "DILIGENT_MODEL".
Proof.
  apply no_model_no_variable. by right.
Defined.

(** The method never raises (the index into the split model name is always
    in range) and returns two steps: the run of the agent on the quoted
    instruction, with the overlay and 600 seconds, then the collection of
    the session logs, with no environment of its own and 30 seconds; the
    second step is the same for every instruction, agent and ambient
    environment. *)
Theorem two_steps_in_order
    (os_environ : gmap string string) (agent_dir : string) (self : DiligentAgent)
    (instruction : string) :
  ∃ overlay,
    create_run_agent_commands os_environ agent_dir self instruction =
      inr [ {| command := "/installed-agent/diligent --prompt " +:+ shlex.quote instruction;
               env := Some overlay;
               timeout_sec := Some 600 |};
            {| command := collect_command agent_dir;
               env := None;
               timeout_sec := Some 30 |} ]
    ∧ ∀ key, is_Some (overlay !! key) →
        is_Some (_extra_env self !! key) ∨ key = "DILIGENT_MODEL" ∨ key ∈ api_keys.
Proof.
  destruct (create_run_agent_commands_steps os_environ agent_dir self instruction)
    as (overlay & Hov & ->).
  eexists. split; [reflexivity|].
  intros key. rewrite (overlay_lookup os_environ self overlay key Hov).
  destruct (_extra_env self !! key); [by left|].
  repeat case_bool_decide; auto.
Qed.

Lemma two_steps_in_order_witness :
  ∃ overlay,
    create_run_agent_commands (list_to_map [("HOME", "/root")]) "/logs/agent"
      (sample_agent (Some "anthropic/claude-x") []) "fix it"
    = inr [ {| command := "/installed-agent/diligent --prompt 'fix it'";
               env := Some overlay;
               timeout_sec := Some 600 |};
            {| command := collect_command "/logs/agent";
               env := None;
               timeout_sec := Some 30 |} ].
Proof.
  destruct (two_steps_in_order (list_to_map [("HOME", "/root")]) "/logs/agent"
              (sample_agent (Some "anthropic/claude-x") []) "fix it") as (overlay & H & _).
  by exists overlay.
Defined.

(** The run command read back by [shlex.split]. *)
Lemma split_run_command (instruction : string) :
  shlex.split (run_command instruction)
  = inr ["/installed-agent/diligent"; "--prompt"; instruction].
Proof.
  unfold run_command.
  by rewrite shlex_facts.split_run_prefix, shlex_facts.tokens_quote.
Qed.

(** Quoting loses nothing: two different instructions have different
    quoted forms and different run commands. *)
Theorem distinct_instructions_distinct_commands (instruction1 instruction2 : string) :
  instruction1 ≠ instruction2 →
  shlex.quote instruction1 ≠ shlex.quote instruction2
  ∧ run_command instruction1 ≠ run_command instruction2.
Proof.
  intros Hne. split; intros H; apply Hne.
  - pose proof (shlex_facts.split_quote instruction1) as H1.
    rewrite H, shlex_facts.split_quote in H1. congruence.
  - pose proof (split_run_command instruction1) as H1.
    rewrite H, split_run_command in H1. congruence.
Qed.

Lemma distinct_instructions_distinct_commands_witness :
  shlex.quote "it's" ≠ shlex.quote "its"
  ∧ run_command "it's" ≠ run_command "its".
Proof.
  apply (distinct_instructions_distinct_commands "it's" "its"). discriminate.
Defined.


(** ** [populate_context_post_run]: one line *)

Section Line_facts.

Variable json_loads : string → exception + json.

Lemma differs_from_other (o : option json) (s : string) :
  o ≠ Some (JStr s) → differs_from (default JNull o) s = true.
Proof.
  destruct o as [[]|]; simpl; try done.
  intros Hne. destruct (String.eqb_spec s0 s) as [->|]; [done | reflexivity].
Qed.

Lemma differs_from_same (s : string) : differs_from (JStr s) s = false.
Proof. simpl. by rewrite String.eqb_refl. Qed.

Lemma add_count (usage : list (string * json)) (key : string) (total : number) :
  add total (default (JInt 0) (assoc key usage)) =
    match count usage key with
    | Some n => num_add total n
    | None => inl TypeError
    end.
Proof. unfold count, add. by destruct (assoc key usage). Qed.

Local Ltac in_keys :=
  unfold count_keys; repeat first [apply list_elem_of_here | apply list_elem_of_further].

Lemma num_add_raises (a b : number) (e : exception) :
  num_add a b = inl e → e = OverflowError.
Proof.
  unfold num_add, to_float.
  destruct a as [m|x], b as [n|y]; simpl; try done;
    destruct (PrimFloat.is_infinity _); simpl; congruence.
Qed.

(** A line of white space only is skipped before the decoder sees it. *)
Lemma process_line_white (t : Totals) (line : string) :
  all_space line = true → process_line json_loads t line = inr t.
Proof.
  intros Hline. apply process_line_blank.
  unfold Str.strip. by rewrite lstrip_all_space.
Qed.

(** An entry that is not a message of the assistant adds nothing, whatever
    else it holds: an entry whose type is missing or is not ["message"], a
    message entry without a message, and a message whose role is missing or
    is not ["assistant"]. *)
Theorem other_entries_add_nothing
    (t : Totals) (line : string) (items : list (string * json)) :
  json_loads (Str.strip line) = inr (JDict items) →
  assoc "type" items ≠ Some (JStr "message")
  ∨ assoc "message" items = None
  ∨ (∃ message, assoc "message" items = Some (JDict message)
       ∧ assoc "role" message ≠ Some (JStr "assistant")) →
  process_line json_loads t line = inr t.
Proof.
  intros Hload Hother. unfold process_line. rewrite Hload.
  destruct (Str.is_empty (Str.strip line)); [done|]. simpl.
  destruct (differs_from (default JNull (assoc "type" items)) "message") eqn:Hty; [done|].
  destruct Hother as [Hother | [Hmsg | (message & Hmsg & Hrole)]].
  - by rewrite differs_from_other in Hty.
  - by rewrite Hmsg.
  - rewrite Hmsg. simpl. by rewrite differs_from_other.
Qed.

(** What a message of the assistant does to the totals, as four
    additions. *)
Lemma process_line_counts
    (t : Totals) (line : string) (items message usage : list (string * json)) :
  Str.strip line ≠ EmptyString →
  json_loads (Str.strip line) = inr (JDict items) →
  assoc "type" items = Some (JStr "message") →
  assoc "message" items = Some (JDict message) →
  assoc "role" message = Some (JStr "assistant") →
  default (JDict []) (assoc "usage" message) = JDict usage →
  process_line json_loads t line =
    and_then (match count usage "inputTokens" with
              | Some n => num_add (total_input t) n | None => inl TypeError end)
      (λ ti,
       and_then (match count usage "outputTokens" with
                 | Some n => num_add (total_output t) n | None => inl TypeError end)
         (λ to,
          and_then (match count usage "cacheReadTokens" with
                    | Some n => num_add (total_cache t) n | None => inl TypeError end)
            (λ tc,
             and_then (match count usage "cacheWriteTokens" with
                       | Some n => num_add tc n | None => inl TypeError end)
               (λ tc', inr {| total_input := ti; total_output := to;
                              total_cache := tc' |})))).
Proof.
  intros Hline Hload Hty Hmsg Hrole Husage. unfold process_line.
  rewrite (not_empty_string _ Hline), Hload. simpl.
  rewrite Hty. simpl. rewrite Hmsg. simpl. rewrite Hrole. simpl. rewrite Husage. simpl.
  rewrite add_count.
  destruct (count usage "inputTokens") as [i|]; cbn [and_then]; [|done].
  destruct (num_add (total_input t) i) as [e|ti]; cbn [and_then]; [done|].
  rewrite add_count.
  destruct (count usage "outputTokens") as [o|]; cbn [and_then]; [|done].
  destruct (num_add (total_output t) o) as [e|to]; cbn [and_then]; [done|].
  rewrite add_count.
  destruct (count usage "cacheReadTokens") as [r|]; cbn [and_then]; [|done].
  destruct (num_add (total_cache t) r) as [e|tc]; cbn [and_then]; [done|].
  by rewrite add_count.
Qed.

(** A message of the assistant adds its input count, its output count and,
    to one total, its cache-read and then its cache-write count; a count
    that is missing, like a usage record that is missing, is 0, and a
    [bool] is 0 or 1.  With integer totals and integer counts the sums are
    exact and nothing is raised. *)
Theorem assistant_message_adds_usage
    (t : Totals) (line : string) (items message usage : list (string * json))
    (i o r w : number) :
  Str.strip line ≠ EmptyString →
  json_loads (Str.strip line) = inr (JDict items) →
  assoc "type" items = Some (JStr "message") →
  assoc "message" items = Some (JDict message) →
  assoc "role" message = Some (JStr "assistant") →
  default (JDict []) (assoc "usage" message) = JDict usage →
  count usage "inputTokens" = Some i →
  count usage "outputTokens" = Some o →
  count usage "cacheReadTokens" = Some r →
  count usage "cacheWriteTokens" = Some w →
  process_line json_loads t line =
    and_then (num_add (total_input t) i) (λ ti,
    and_then (num_add (total_output t) o) (λ to,
    and_then (num_add (total_cache t) r) (λ tc,
    and_then (num_add tc w) (λ tc',
    inr {| total_input := ti; total_output := to; total_cache := tc' |}))))
  ∧ (∀ a b c i' o' r' w',
       t = ints a b c → i = Int i' → o = Int o' → r = Int r' → w = Int w' →
       process_line json_loads t line = inr (ints (a + i') (b + o') (c + r' + w'))).
Proof.
  intros Hline Hload Hty Hmsg Hrole Husage Hi Ho Hr Hw.
  rewrite (process_line_counts t line items message usage) by done.
  rewrite Hi, Ho, Hr, Hw. split; [done|].
  by intros a b c i' o' r' w' -> -> -> -> ->.
Qed.

(** A count of a message of the assistant that is there and is not a number
    ([null], a string, a list, an object) makes the line raise: the
    [TypeError] of adding it, unless the addition of a count before it has
    raised [OverflowError].  It is [TypeError] when the input count is the
    one that is not a number, and when the totals and the other counts are
    integers.  Only a missing count defaults to 0. *)
Theorem bad_count_raises_type_error
    (t : Totals) (line : string) (items message usage : list (string * json)) :
  Str.strip line ≠ EmptyString →
  json_loads (Str.strip line) = inr (JDict items) →
  assoc "type" items = Some (JStr "message") →
  assoc "message" items = Some (JDict message) →
  assoc "role" message = Some (JStr "assistant") →
  default (JDict []) (assoc "usage" message) = JDict usage →
  count usage "inputTokens" = None ∨ count usage "outputTokens" = None
  ∨ count usage "cacheReadTokens" = None ∨ count usage "cacheWriteTokens" = None →
  (process_line json_loads t line = inl TypeError
   ∨ process_line json_loads t line = inl OverflowError)
  ∧ (count usage "inputTokens" = None → process_line json_loads t line = inl TypeError)
  ∧ (∀ a b c, t = ints a b c →
       (∀ key x, key ∈ count_keys → count usage key ≠ Some (Float x)) →
       process_line json_loads t line = inl TypeError).
Proof.
  intros Hline Hload Hty Hmsg Hrole Husage Hbad.
  rewrite (process_line_counts t line items message usage) by done.
  split; [|split].
  - destruct (count usage "inputTokens") as [i|]; [|by left].
    destruct (num_add (total_input t) i) as [e|ti] eqn:E;
      [apply num_add_raises in E as ->; by right|]. cbn [and_then].
    destruct (count usage "outputTokens") as [o|]; [|by left].
    destruct (num_add (total_output t) o) as [e|to] eqn:E';
      [apply num_add_raises in E' as ->; by right|]. cbn [and_then].
    destruct (count usage "cacheReadTokens") as [r|]; [|by left].
    destruct (num_add (total_cache t) r) as [e|tc] eqn:E'';
      [apply num_add_raises in E'' as ->; by right|]. cbn [and_then].
    destruct (count usage "cacheWriteTokens") as [w|]; [|by left].
    by destruct Hbad as [?|[?|[?|?]]].
  - by intros ->.
  - intros a b c -> Hint. simpl.
    assert (∀ key, key ∈ count_keys →
            count usage key = None ∨ ∃ n, count usage key = Some (Int n)) as Hcount.
    { intros key Hkey. destruct (count usage key) as [[n|x]|] eqn:E; eauto.
      by destruct (Hint key x Hkey). }
    destruct (Hcount "inputTokens") as [Hi|[i Hi]]; [in_keys|by rewrite Hi|].
    destruct (Hcount "outputTokens") as [Ho|[o Ho]]; [in_keys|by rewrite Hi, Ho|].
    destruct (Hcount "cacheReadTokens") as [Hr|[r Hr]]; [in_keys|by rewrite Hi, Ho, Hr|].
    destruct (Hcount "cacheWriteTokens") as [Hw|[w Hw]];
      [in_keys|by rewrite Hi, Ho, Hr, Hw|].
    destruct Hbad as [?|[?|[?|?]]]; congruence.
Qed.

(** [get] is a method of [dict] only: a line that decodes to anything but
    an object, a message entry whose message is not an object, and a
    message of the assistant whose usage is not an object, raise
    [AttributeError]. *)
Theorem not_an_object_raises_attribute_error
    (t : Totals) (line : string) (entry : json) :
  Str.strip line ≠ EmptyString →
  json_loads (Str.strip line) = inr entry →
  (∀ items, entry ≠ JDict items)
  ∨ (∃ items v, entry = JDict items
       ∧ assoc "type" items = Some (JStr "message")
       ∧ assoc "message" items = Some v ∧ (∀ message, v ≠ JDict message))
  ∨ (∃ items message v, entry = JDict items
       ∧ assoc "type" items = Some (JStr "message")
       ∧ assoc "message" items = Some (JDict message)
       ∧ assoc "role" message = Some (JStr "assistant")
       ∧ assoc "usage" message = Some v ∧ (∀ usage, v ≠ JDict usage)) →
  process_line json_loads t line = inl AttributeError.
Proof.
  intros Hline Hload Hbad. unfold process_line.
  rewrite (not_empty_string _ Hline), Hload.
  destruct Hbad as [Hentry | [(items & v & -> & Hty & Hmsg & Hv)
                             | (items & message & v & -> & Hty & Hmsg & Hrole & Husage & Hv)]].
  - destruct entry; try done. by destruct (Hentry items).
  - simpl. rewrite Hty, Hmsg. simpl.
    destruct v; try done. by destruct (Hv items0).
  - simpl. rewrite Hty, Hmsg. simpl. rewrite Hrole, Husage. simpl.
    destruct v; try done. by destruct (Hv items0).
Qed.




End Line_facts.

Lemma other_entries_add_nothing_witness :
  process_line SampleJson.loads (ints 4 2 0) user_line = inr (ints 4 2 0).
Proof.
  eapply other_entries_add_nothing; [vm_compute; reflexivity|].
  right. right. eexists. split; [reflexivity | discriminate].
Defined.

Lemma assistant_message_adds_usage_witness :
  process_line SampleJson.loads (ints 4 2 0)
    (SampleJson.line "'type':'message','message':{'role':'assistant','usage':{'outputTokens':true,'cacheReadTokens':3,'cacheWriteTokens':-5}}")
  = inr (ints (4 + 0) (2 + 1) (0 + 3 + -5)).
Proof.
  edestruct (assistant_message_adds_usage SampleJson.loads (ints 4 2 0)
               (SampleJson.line "'type':'message','message':{'role':'assistant','usage':{'outputTokens':true,'cacheReadTokens':3,'cacheWriteTokens':-5}}"))
    as [_ Hints];
    [discriminate | vm_compute; reflexivity | reflexivity | reflexivity | reflexivity
    | reflexivity | reflexivity | reflexivity | reflexivity | reflexivity |].
  by apply Hints.
Defined.

Lemma bad_count_raises_type_error_witness :
  process_line SampleJson.loads no_usage
    (SampleJson.line "'type':'message','message':{'role':'assistant','usage':{'inputTokens':null}}")
  = inl TypeError.
Proof.
  edestruct (bad_count_raises_type_error SampleJson.loads no_usage
               (SampleJson.line "'type':'message','message':{'role':'assistant','usage':{'inputTokens':null}}"))
    as (_ & Hinput & _);
    [discriminate | vm_compute; reflexivity | reflexivity | reflexivity | reflexivity
    | reflexivity | left; reflexivity |].
  by apply Hinput.
Defined.

Lemma not_an_object_raises_attribute_error_witness :
  process_line SampleJson.loads no_usage "[1, 2]" = inl AttributeError
  ∧ process_line SampleJson.loads no_usage
      (SampleJson.line "'type':'message','message':null") = inl AttributeError.
Proof.
  split.
  - eapply not_an_object_raises_attribute_error;
      [discriminate | vm_compute; reflexivity | left; discriminate].
  - eapply not_an_object_raises_attribute_error;
      [discriminate | vm_compute; reflexivity |].
    right. left. do 2 eexists. split; [reflexivity|].
    split; [reflexivity|]. split; [reflexivity | discriminate].
Defined.

(** ** [populate_context_post_run]: the files of the directory *)

(** A line of white space only, anywhere in a file, changes nothing, for
    every decoder: the decoder is not run on it. *)
Theorem blank_line_is_skipped
    (json_loads : string → exception + json) (before after : list File)
    (name : string) (pre post : list string) (blank : string) (fails : option exception) :
  all_space blank = true →
  aggregate json_loads
    (before ++ {| file_name := name; file_lines := pre ++ blank :: post;
                  file_fails := fails |} :: after)
  = aggregate json_loads
      (before ++ {| file_name := name; file_lines := pre ++ post;
                    file_fails := fails |} :: after).
Proof.
  intros Hblank. apply aggregate_replace_file; [done|].
  apply process_file_drop_line. intros t. by apply process_line_white.
Qed.

Lemma blank_line_is_skipped_witness :
  aggregate broken_decoder
    [readable "run.jsonl" [String "009" (String "010" EmptyString)]]
  = aggregate broken_decoder [readable "run.jsonl" []].
Proof.
  apply (blank_line_is_skipped broken_decoder [] [] "run.jsonl" [] [] _ None). reflexivity.
Defined.

(** A file whose name does not end in [.jsonl] is not opened: whatever its
    lines, and whether it can be read or not, the result is that of the
    directory without it. *)
Theorem other_files_are_not_read
    (json_loads : string → exception + json) (before after : list File) (f : File) :
  Str.endswith ".jsonl" (file_name f) = false →
  aggregate json_loads (before ++ f :: after) = aggregate json_loads (before ++ after).
Proof.
  intros Hname. unfold aggregate, glob_jsonl.
  rewrite !filter_app, filter_cons_False; [done|].
  rewrite Hname. by intros [].
Qed.

Lemma other_files_are_not_read_witness :
  aggregate SampleJson.loads
    [ readable "run.jsonl" [assistant_line_1];
      {| file_name := "run.jsonl.bak"; file_lines := ["[]"];
         file_fails := Some (OtherError "PermissionError") |} ]
  = aggregate SampleJson.loads [readable "run.jsonl" [assistant_line_1]].
Proof.
  apply (other_files_are_not_read SampleJson.loads
           [readable "run.jsonl" [assistant_line_1]] []
           {| file_name := "run.jsonl.bak"; file_lines := ["[]"];
              file_fails := Some (OtherError "PermissionError") |}).
  reflexivity.
Defined.

(** With integer counts, the totals of a directory are the sum of the
    totals of its parts: the files of a listing [files1 ++ files2] give
    what [files1] raises, else what [files2] raises, else the two totals
    added. *)
Theorem aggregate_of_parts
    (json_loads : string → exception + json) (files1 files2 : list File) :
  integer_counts json_loads (files1 ++ files2) →
  ∃ r1 r2 : exception + Z * Z * Z,
    aggregate json_loads files1 = of_ints r1
    ∧ aggregate json_loads files2 = of_ints r2
    ∧ aggregate json_loads (files1 ++ files2) =
        of_ints match r1, r2 with
                | inl e, _ => inl e
                | inr _, inl e => inl e
                | inr (i, o, k), inr (i', o', k') => inr (i + i', o + o', k + k')
                end.
Proof.
  intros Hint.
  assert (integer_counts json_loads files1) as Hint1
    by (intros f Hf; apply Hint, elem_of_app; by left).
  assert (integer_counts json_loads files2) as Hint2
    by (intros f Hf; apply Hint, elem_of_app; by right).
  destruct (shifts_for_each _ _ (files_shift json_loads files1 Hint1)) as [r1 Hr1].
  destruct (shifts_for_each _ _ (files_shift json_loads files2 Hint2)) as [r2 Hr2].
  exists r1, r2. unfold aggregate, glob_jsonl in *.
  change no_usage with (ints 0 0 0). rewrite filter_app, for_each_app, Hr1, Hr2.
  destruct r1 as [e1|[[i o] k]]; simpl.
  - by destruct r2 as [e2|[[i' o'] k']].
  - rewrite Hr2. by destruct r2 as [e2|[[i' o'] k']].
Qed.

Lemma aggregate_of_parts_witness :
  ∃ r1 r2 : exception + Z * Z * Z,
    aggregate SampleJson.loads [readable "a.jsonl" [assistant_line_1]] = of_ints r1
    ∧ aggregate SampleJson.loads [readable "b.jsonl" [assistant_line_2]] = of_ints r2
    ∧ aggregate SampleJson.loads
        ([readable "a.jsonl" [assistant_line_1]] ++ [readable "b.jsonl" [assistant_line_2]]) =
        of_ints match r1, r2 with
                | inl e, _ => inl e
                | inr _, inl e => inl e
                | inr (i, o, k), inr (i', o', k') => inr (i + i', o + o', k + k')
                end.
Proof.
  apply aggregate_of_parts.
  apply sample_lines_integer. repeat constructor; vm_compute; reflexivity.
Defined.

(** Where one log file ends and the next begins does not matter: a file
    and its two halves as two files give the same result, for every kind of
    count. *)
Theorem file_boundaries_do_not_matter
    (json_loads : string → exception + json) (before after : list File)
    (name name1 name2 : string) (lines1 lines2 : list string) (fails : option exception) :
  Str.endswith ".jsonl" name = true →
  Str.endswith ".jsonl" name1 = true →
  Str.endswith ".jsonl" name2 = true →
  aggregate json_loads
    (before ++ {| file_name := name; file_lines := lines1 ++ lines2;
                  file_fails := fails |} :: after)
  = aggregate json_loads
      (before ++ {| file_name := name1; file_lines := lines1; file_fails := None |}
              :: {| file_name := name2; file_lines := lines2; file_fails := fails |}
              :: after).
Proof.
  intros Hname Hname1 Hname2. unfold aggregate, glob_jsonl.
  rewrite !filter_app, !for_each_app.
  destruct (for_each _ no_usage (filter _ before)) as [e|t]; [done|]. cbn [and_then].
  rewrite !filter_cons_True by (simpl; by rewrite ?Hname, ?Hname1, ?Hname2).
  simpl. unfold process_file at 1 3 4. simpl. rewrite for_each_app.
  by destruct (for_each (process_line json_loads) t lines1).
Qed.

Lemma file_boundaries_do_not_matter_witness :
  aggregate SampleJson.loads
    [ {| file_name := "all.jsonl"; file_lines := [input_line "0.1"] ++ [input_line "0.2"];
         file_fails := None |} ]
  = aggregate SampleJson.loads
      [ {| file_name := "a.jsonl"; file_lines := [input_line "0.1"]; file_fails := None |};
        {| file_name := "b.jsonl"; file_lines := [input_line "0.2"]; file_fails := None |} ].
Proof.
  apply (file_boundaries_do_not_matter SampleJson.loads [] []); reflexivity.
Defined.

Lemma for_each_file_same_totals
    (json_loads : string → exception + json) (files : list File)
    (r1 r2 : exception + Totals) :
  same_totals r1 r2 →
  same_totals (and_then r1 (λ t, for_each (process_file json_loads) t files))
              (and_then r2 (λ t, for_each (process_file json_loads) t files)).
Proof.
  destruct r1 as [e1|t1], r2 as [e2|t2]; simpl; try done.
  intros ->. apply same_totals_refl.
Qed.

(** With integer counts, the order of the lines of a file does not matter
    either: the same lines in another order give the same totals, or raise
    as well. *)
Theorem line_order_does_not_matter
    (json_loads : string → exception + json) (before after : list File)
    (name : string) (lines1 lines2 : list string) (fails : option exception) :
  integer_counts json_loads
    (before ++ {| file_name := name; file_lines := lines1; file_fails := fails |} :: after) →
  lines1 ≡ₚ lines2 →
  same_totals
    (aggregate json_loads
       (before ++ {| file_name := name; file_lines := lines1; file_fails := fails |} :: after))
    (aggregate json_loads
       (before ++ {| file_name := name; file_lines := lines2; file_fails := fails |} :: after)).
Proof.
  intros Hint Hperm. unfold aggregate, glob_jsonl.
  rewrite !filter_app, !filter_cons, !for_each_app. simpl.
  assert (integer_counts json_loads before) as Hbefore
    by (intros f Hf; apply Hint, elem_of_app; by left).
  destruct (shifts_for_each _ _ (files_shift json_loads before Hbefore)) as [r Hr].
  unfold glob_jsonl in Hr. change no_usage with (ints 0 0 0). rewrite Hr.
  destruct r as [e|[[a b] c]]; [done|]. cbn [and_then].
  case_decide as Hname; [|apply same_totals_refl]. simpl.
  apply for_each_file_same_totals. unfold process_file. simpl.
  assert (integer_lines json_loads lines1) as Hlines.
  { apply (Hint {| file_name := name; file_lines := lines1; file_fails := fails |});
      [|done]. apply elem_of_app. right. apply list_elem_of_here. }
  pose proof (shifts_permutation _ _ _ (lines_shift json_loads lines1 Hlines) Hperm
                (0 + a) (0 + b) (0 + c)) as Hsame.
  destruct (for_each (process_line json_loads) _ lines1) as [e1|t1],
           (for_each (process_line json_loads) _ lines2) as [e2|t2];
    simpl in *; try done.
  subst. apply same_totals_refl.
Qed.

Lemma line_order_does_not_matter_witness :
  same_totals
    (aggregate SampleJson.loads
       [ {| file_name := "run.jsonl"; file_lines := [assistant_line_1; assistant_line_2];
            file_fails := None |} ])
    (aggregate SampleJson.loads
       [ {| file_name := "run.jsonl"; file_lines := [assistant_line_2; assistant_line_1];
            file_fails := None |} ]).
Proof.
  apply (line_order_does_not_matter SampleJson.loads [] []); [|apply Permutation_swap].
  apply sample_lines_integer. repeat constructor; vm_compute; reflexivity.
Defined.





(** The method writes all or nothing: when it raises, the context is as it
    was, the totals of the lines before the failure are dropped; when it
    returns on an existing directory, the input and output totals are set
    and the cache total is a number greater than zero or [None]. *)
Theorem populate_all_or_nothing
    (json_loads : string → exception + json) (read_dir : Path → option (list File))
    (self : DiligentAgent) (context : AgentContext) :
  (∀ e, (populate_context_post_run json_loads read_dir self context).2 = Some e →
        (populate_context_post_run json_loads read_dir self context).1 = context)
  ∧ (is_Some (read_dir (sessions_dir self)) →
     (populate_context_post_run json_loads read_dir self context).2 = None →
     let after := (populate_context_post_run json_loads read_dir self context).1 in
     is_Some (n_input_tokens after)
     ∧ is_Some (n_output_tokens after)
     ∧ ∀ c, n_cache_tokens after = Some c → is_positive c = true).
Proof.
  unfold populate_context_post_run. fold (sessions_dir self).
  destruct (read_dir (sessions_dir self)) as [files|]; simpl.
  - destruct (aggregate json_loads files) as [e|t]; simpl.
    + split; [done|]. by intros _ [=].
    + split; [done|]. intros _ _. split; [by eexists|]. split; [by eexists|].
      intros c. destruct (is_positive (total_cache t)) eqn:Hc; [|done].
      by intros [= <-].
  - split; [done|]. by intros [? [=]].
Qed.

Lemma populate_all_or_nothing_witness :
  let self := sample_agent None [] in
  let used := {| n_input_tokens := Some (Int 5); n_cache_tokens := Some (Int 2);
                 n_output_tokens := Some (Int 3) |} in
  (populate_context_post_run SampleJson.loads
     (only_dir (sessions_dir self)
        [ {| file_name := "run.jsonl"; file_lines := [assistant_line_1];
             file_fails := Some (OtherError "UnicodeDecodeError") |} ])
     self used).1 = used.
Proof.
  intros self used.
  eapply (populate_all_or_nothing SampleJson.loads _ self used).
  vm_compute. reflexivity.
Defined.
